(** * API_Key_Generator.c: a shallow embedding of the key generator and of
    the editor of application.properties, with its properties. *)

From Stdlib Require Import List Ascii String ZArith Lia Bool.
Import ListNotations.
Open Scope list_scope.

(** Bytes of a C buffer.  A C string is a list of bytes; the terminating
    NUL is the end of the list. *)
Abbreviation bytes := (list ascii).

Definition NUL : ascii := zero.
Definition NL : ascii := "010"%char.
Definition CR : ascii := "013"%char.
Definition COMMA : ascii := ","%char.

Definition ascii_eqb (a b : ascii) : bool :=
  if ascii_dec a b then true else false.

(** [#define KEY_LENGTH 32] *)
Definition KEY_LENGTH : nat := 32.
(** [#define MAX_LINE_LENGTH 1024] *)
Definition MAX_LINE_LENGTH : nat := 1024.

(** [const char charset[]]: 62 symbols, without the terminating NUL. *)
Definition charset : bytes :=
  list_ascii_of_string
    ("ABCDEFGHIJKLMNOPQRSTUVWXYZ" ++
     "abcdefghijklmnopqrstuvwxyz" ++
     "0123456789")%string.

(** [sizeof(charset) - 1] *)
Definition charset_size : nat := List.length charset.

(** The C string held by a buffer: everything before its first NUL
    (what [strlen], [strdup] and ["%s"] see). *)
Fixpoint cstr (s : bytes) : bytes :=
  match s with
  | [] => []
  | c :: s' => if ascii_eqb c NUL then [] else c :: cstr s'
  end.

(** ** Token generator: [generate_api_key] *)

(** What the operating system does for [/dev/urandom]: whether [open]
    succeeds, what [read] does ([None]: it returns -1; [Some l]: it fills
    the first [length l] bytes of the buffer with [l]), and the
    indeterminate contents of the uninitialised stack buffer
    [unsigned char buffer[length]]. *)
Record entropy := {
  urandom_opens : bool;
  urandom_read : option (list Byte.byte);
  stale : nat -> Byte.byte
}.

(** [buffer] after [read(fd, buffer, length)]: the bytes delivered by the
    read, the old contents elsewhere.  The return value of [read] is not
    looked at by the code. *)
Definition buffer_after_read (e : entropy) (length : nat) (i : nat) : Byte.byte :=
  match urandom_read e with
  | Some l => if i <? Nat.min (List.length l) length
              then nth i l Byte.x00 else stale e i
  | None => stale e i
  end.

(** [key[i] = charset[buffer[i] % (sizeof(charset) - 1)]] *)
Definition key_char (e : entropy) (length i : nat) : ascii :=
  nth (Byte.to_nat (buffer_after_read e length i) mod charset_size) charset NUL.

(** [generate_api_key(key, length)]: [None] is the [exit(1)] taken when
    [/dev/urandom] cannot be opened; [Some key] is the key written. *)
Definition generate_api_key (e : entropy) (length : nat) : option bytes :=
  if negb (urandom_opens e) then None
  else Some (map (key_char e length) (seq 0 length)).

(** ** Properties file editor: [add_key_to_properties] *)

(** The file at [PROPERTIES_FILE]: its bytes, whether [fopen] succeeds in
    mode ["r"] and in mode ["w"], how many bytes the device accepts before
    writes start failing ([None]: no limit), and when reading fails
    ([None]: never; [Some n]: the first [n] calls of [fgets] succeed or
    meet the end of the file, the next one returns NULL on a read error). *)
Record fs := {
  data : bytes;
  readable : bool;
  writable : bool;
  quota : option nat;
  read_fails_after : option nat
}.

(** [fgets(line, sizeof(line), file)] with [sizeof(line) = MAX_LINE_LENGTH]:
    at most [n] bytes, up to and including the first newline. *)
Fixpoint take_line (n : nat) (s : bytes) : bytes * bytes :=
  match n with
  | O => ([], s)
  | S n' =>
      match s with
      | [] => ([], [])
      | c :: s' =>
          if ascii_eqb c NL then ([c], s')
          else let (l, r) := take_line n' s' in (c :: l, r)
      end
  end.

(** [None] is the NULL returned at the end of the stream; a read error is
    the NULL returned once the loop's [fuel] is spent (see [read_phase]). *)
Definition fgets (s : bytes) : option (bytes * bytes) :=
  match s with
  | [] => None
  | _ => Some (take_line (MAX_LINE_LENGTH - 1) s)
  end.

(** [len = strlen(line); if (len > 0 && line[len-1] == '\n') line[len-1] = '\0';]
    followed by [strdup(line)]. *)
Definition strip_newline (line : bytes) : bytes :=
  let s := cstr line in
  if (0 <? List.length s) && ascii_eqb (last s NUL) NL then removelast s else s.

(** ["api.security.keys="] *)
Definition keys_prefix : bytes := list_ascii_of_string "api.security.keys=".

(** [strncmp(a, b, n) == 0] on two C strings. *)
Definition strncmp_eq (a b : bytes) (n : nat) : bool :=
  if list_eq_dec ascii_dec (firstn n (cstr a)) (firstn n (cstr b))
  then true else false.

Definition is_keys_line (line : bytes) : bool :=
  strncmp_eq line keys_prefix 18.

(** [key_line_index = num_lines], from [size_t] to [int]: gcc keeps the
    low 32 bits and reads them in two's complement. *)
Definition int_of_size_t (n : nat) : Z :=
  let m := (Z.of_nat n mod 2 ^ 32)%Z in
  if (m <? 2 ^ 31)%Z then m else (m - 2 ^ 32)%Z.

Arguments int_of_size_t : simpl never.

(** The [while (fgets(...))] loop: the stored lines and [key_line_index].
    [fuel] is the number of calls of [fgets] that may succeed: the next one
    returns NULL as on a read error.  Every successful call consumes a
    byte, so [S (length s)] calls always reach the end of the file. *)
Fixpoint read_loop (fuel : nat) (s : bytes) (lines : list bytes)
    (key_line_index : Z) : list bytes * Z :=
  match fuel with
  | O => (lines, key_line_index)
  | S fuel' =>
      match fgets s with
      | None => (lines, key_line_index)
      | Some (chunk, rest) =>
          let line := strip_newline chunk in
          let key_line_index' :=
            if is_keys_line line then int_of_size_t (List.length lines)
            else key_line_index in
          read_loop fuel' rest (lines ++ [strip_newline chunk]) key_line_index'
      end
  end.

Definition read_budget (st : fs) : nat :=
  match read_fails_after st with
  | None => S (List.length (data st))
  | Some n => n
  end.

Definition read_phase (st : fs) : list bytes * Z :=
  read_loop (read_budget st) (data st) [] (-1).

(** [snprintf(new_line, sizeof(new_line), ...)] with a 1024-byte buffer. *)
Definition snprintf_line (formatted : bytes) : bytes :=
  firstn (MAX_LINE_LENGTH - 1) formatted.

(** [lines[i] = x], for [i] in range. *)
Fixpoint set_nth {A} (i : nat) (l : list A) (x : A) : list A :=
  match l, i with
  | [], _ => []
  | _ :: l', O => x :: l'
  | y :: l', S i' => y :: set_nth i' l' x
  end.

Definition warning_missing : string :=
  "Warning: api.security.keys line not found, adding new line".

(** The edit between reading and writing: the new lines and what is
    printed on [stderr].  [lines[key_line_index]] is defined only for an
    index of a stored line; for any other index but -1 the value computed
    here stands for no behaviour of C (see [edit_undefined]). *)
Definition edit_phase (api_key : bytes) (lines : list bytes) (key_line_index : Z)
    : list bytes * list string :=
  if Z.eqb key_line_index (-1) then
    (lines ++ [snprintf_line (keys_prefix ++ cstr api_key)], [warning_missing])
  else
    let i := Z.to_nat key_line_index in
    let old_line := nth i lines [] in
    (set_nth i lines (snprintf_line (cstr old_line ++ [COMMA] ++ cstr api_key)), []).

(** [lines[key_line_index]] is inside the array. *)
Definition index_in_range (lines : list bytes) (k : Z) : bool :=
  (0 <=? k)%Z && (k <? Z.of_nat (List.length lines))%Z.

(** The edit has undefined behaviour: [key_line_index] is neither -1 nor
    the index of a stored line. *)
Definition edit_undefined (lines : list bytes) (k : Z) : bool :=
  negb (Z.eqb k (-1)) && negb (index_in_range lines k).

(** [for (...) fprintf(file, "%s\n", lines[i]);] *)
Definition render (lines : list bytes) : bytes :=
  List.concat (map (fun l => cstr l ++ [NL]) lines).

(** What the device keeps of the bytes written after truncation. *)
Definition written (st : fs) (out : bytes) : bytes :=
  match quota st with
  | None => out
  | Some q => firstn q out
  end.

(** What [add_key_to_properties] returns, leaves on disk and prints on
    [stderr]; [ub] is set when the run went through undefined behaviour,
    and the other fields then stand for no particular outcome. *)
Record io_result := {
  ret : Z;
  disk : fs;
  err : list string;
  ub : bool
}.

Definition err_read : string :=
  "Error opening application.properties for reading".
Definition err_write : string :=
  "Error opening application.properties for writing".

Definition add_key_to_properties (api_key : bytes) (st : fs) : io_result :=
  if negb (readable st) then
    {| ret := 1; disk := st; err := [err_read]; ub := false |}
  else
    let (lines, key_line_index) := read_phase st in
    let (lines', warn) := edit_phase api_key lines key_line_index in
    if negb (writable st) then
      {| ret := 1; disk := st; err := warn ++ [err_write];
         ub := edit_undefined lines key_line_index |}
    else
      {| ret := 0;
         disk := {| data := written st (render lines');
                    readable := readable st; writable := writable st;
                    quota := quota st; read_fails_after := read_fails_after st |};
         err := warn;
         ub := edit_undefined lines key_line_index |}.

(** ** [main] *)

Record run := {
  exit_status : Z;
  disk_after : fs;
  stdout : list string;
  stderr : list string;
  run_ub : bool
}.

Definition main (e : entropy) (st : fs) : run :=
  match generate_api_key e KEY_LENGTH with
  | None =>
      {| exit_status := 1; disk_after := st; stdout := [];
         stderr := ["Error while opening /dev/urandom"%string]; run_ub := false |}
  | Some api_key =>
      let out1 := ("Generated API Key: " ++ string_of_list_ascii api_key)%string in
      let r := add_key_to_properties api_key st in
      if Z.eqb (ret r) 0 then
        {| exit_status := 0; disk_after := disk r;
           stdout := [out1; "API Key successfully added to application.properties"%string];
           stderr := err r; run_ub := ub r |}
      else
        {| exit_status := 1; disk_after := disk r; stdout := [out1];
           stderr := err r ++ ["Failed to add API Key to application.properties"%string];
           run_ub := ub r |}
  end.

(** ** Reading of the properties file as a sequence of lines *)

(** The lines of a text file: split at every newline, the empty remainder
    after a final newline is not a line. *)
Fixpoint lines_of (s : bytes) : list bytes :=
  match s with
  | [] => []
  | c :: s' =>
      if ascii_eqb c NL then [] :: lines_of s'
      else match lines_of s' with
           | [] => [[c]]
           | l :: ls => (c :: l) :: ls
           end
  end.

(** The comma-separated elements of a value. *)
Fixpoint split_on (sep : ascii) (s : bytes) : list bytes :=
  match s with
  | [] => [[]]
  | c :: s' =>
      if ascii_eqb c sep then [] :: split_on sep s'
      else match split_on sep s' with
           | [] => [[c]]
           | x :: xs => (c :: x) :: xs
           end
  end.

(** Every line of the file fits in [fgets]'s buffer together with its
    newline. *)
Definition short_lines (s : bytes) : Prop :=
  Forall (fun l => List.length l <= MAX_LINE_LENGTH - 2) (lines_of s).

(** A text file: no NUL byte. *)
Definition text_file (s : bytes) : Prop := ~ In NUL s.

(** The last line carrying the keys prefix. *)
Fixpoint last_keys_line (ls : list bytes) : option bytes :=
  match ls with
  | [] => None
  | l :: ls' =>
      match last_keys_line ls' with
      | Some x => Some x
      | None => if is_keys_line l then Some l else None
      end
  end.

(** The index the read loop ends with, when it starts at line [base] with
    index [k]. *)
Fixpoint scan_keys (base : nat) (ls : list bytes) (k : Z) : Z :=
  match ls with
  | [] => k
  | l :: ls' =>
      scan_keys (S base) ls' (if is_keys_line l then int_of_size_t base else k)
  end.

(** A token as [generate_api_key] makes them. *)
Definition token_ok (t : bytes) : bool :=
  (List.length t =? KEY_LENGTH) && forallb (fun c => existsb (ascii_eqb c) charset) t.

(** ** Lemmas *)

Lemma ascii_eqb_true a b : ascii_eqb a b = true <-> a = b.
Proof. unfold ascii_eqb; destruct (ascii_dec a b); split; congruence. Qed.

Lemma ascii_eqb_false a b : ascii_eqb a b = false <-> a <> b.
Proof. unfold ascii_eqb; destruct (ascii_dec a b); split; congruence. Qed.

Ltac eqb_cases a b :=
  let E := fresh "E" in
  destruct (ascii_eqb a b) eqn:E;
  [apply ascii_eqb_true in E | apply ascii_eqb_false in E].

Lemma cstr_nonul s : ~ In NUL s -> cstr s = s.
Proof.
  induction s as [|c s IH]; simpl; intros H; auto.
  eqb_cases c NUL; [exfalso; auto | rewrite IH; auto].
Qed.

Lemma cstr_app_nonul a b : ~ In NUL a -> cstr (a ++ b) = a ++ cstr b.
Proof.
  induction a as [|c a IH]; simpl; intros H; auto.
  eqb_cases c NUL; [exfalso; auto | rewrite IH; auto].
Qed.

Lemma cstr_no_nul s : ~ In NUL (cstr s).
Proof.
  induction s as [|c s IH]; simpl; auto.
  eqb_cases c NUL; simpl; auto. intros [H|H]; auto.
Qed.

Lemma cstr_idem s : cstr (cstr s) = cstr s.
Proof. apply cstr_nonul, cstr_no_nul. Qed.

Lemma in_cstr x s : In x (cstr s) -> In x s.
Proof.
  induction s as [|c s IH]; simpl; auto.
  destruct (ascii_eqb c NUL); simpl; intuition.
Qed.

Lemma cstr_length s : List.length (cstr s) <= List.length s.
Proof.
  induction s as [|c s IH]; simpl; auto.
  destruct (ascii_eqb c NUL); simpl; lia.
Qed.

Lemma in_firstn {A} (x : A) n l : In x (firstn n l) -> In x l.
Proof.
  intros H. rewrite <- (firstn_skipn n l). apply in_or_app. auto.
Qed.

Lemma set_nth_length {A} i (l : list A) x : List.length (set_nth i l x) = List.length l.
Proof.
  revert i; induction l as [|y l IH]; intros [|i]; simpl; auto.
Qed.

Lemma set_nth_app {A} (pre post : list A) y x :
  set_nth (List.length pre) (pre ++ y :: post) x = pre ++ x :: post.
Proof. induction pre as [|z pre IH]; simpl; congruence. Qed.

Lemma nth_app_len {A} (pre post : list A) y d :
  nth (List.length pre) (pre ++ y :: post) d = y.
Proof. induction pre as [|z pre IH]; simpl; auto. Qed.

(** *** [fgets] and the newline strip *)

Lemma take_line_line n l r :
  ~ In NL l -> List.length l < n -> take_line n (l ++ NL :: r) = (l ++ [NL], r).
Proof.
  revert n; induction l as [|c l IH]; intros [|n] Hl Hn; simpl in *; try lia.
  - unfold ascii_eqb; destruct (ascii_dec NL NL); congruence.
  - eqb_cases c NL; [exfalso; auto|].
    rewrite IH by (auto || lia). reflexivity.
Qed.

Lemma take_line_last n l :
  ~ In NL l -> List.length l <= n -> take_line n l = (l, []).
Proof.
  revert n; induction l as [|c l IH]; intros [|n] Hl Hn; simpl in *; try lia; auto.
  eqb_cases c NL; [exfalso; auto|].
  rewrite IH by (auto || lia). reflexivity.
Qed.

(** Shape of what [fgets] returns: at most [n] bytes, a newline only at
    the end, and the rest of the stream behind it. *)
Lemma take_line_shape n s chunk rest :
  take_line n s = (chunk, rest) ->
  chunk ++ rest = s /\ List.length chunk <= n /\
  ((exists c, chunk = c ++ [NL] /\ ~ In NL c) \/ ~ In NL chunk).
Proof.
  revert n chunk rest; induction s as [|c s IH]; intros [|n] chunk rest H.
  1-3: inversion H; subst; simpl; repeat split; try lia; right; intros [].
  - simpl in H. eqb_cases c NL.
    + inversion H; subst. repeat split; simpl; auto; try lia.
      left. exists []. split; auto.
    + destruct (take_line n s) as [l r] eqn:Et. inversion H; subst.
      destruct (IH _ _ _ Et) as [Hcat [Hlen Hsh]].
      simpl; rewrite Hcat. repeat split; [lia|].
      destruct Hsh as [[c' [-> Hc']]|Hn].
      * left. exists (c :: c'). split; auto. simpl. intros [?|?]; auto.
      * right. simpl. intros [?|?]; auto.
Qed.

Lemma no_nl_cstr s : ~ In NL s -> ~ In NL (cstr s).
Proof. intros H Hin. apply H, in_cstr, Hin. Qed.

Lemma strip_newline_nonl c : ~ In NL c -> strip_newline c = cstr c.
Proof.
  intros H. unfold strip_newline.
  destruct (List.length (cstr c)) eqn:El; simpl; auto.
  eqb_cases (last (cstr c) NUL) NL; simpl; auto.
  exfalso. apply (no_nl_cstr c H).
  assert (Hne : cstr c <> []) by (intros E0; rewrite E0 in El; discriminate).
  rewrite (app_removelast_last NUL Hne). rewrite E. apply in_or_app. simpl; auto.
Qed.

Lemma cstr_app_nl c :
  ~ In NL c -> cstr (c ++ [NL]) = cstr c \/ (cstr (c ++ [NL]) = c ++ [NL] /\ cstr c = c).
Proof.
  induction c as [|x c IH]; simpl; intros H.
  - right. split; reflexivity.
  - eqb_cases x NUL; auto.
    destruct IH as [-> | [-> ->]]; auto.
Qed.

Lemma strip_newline_nl c : ~ In NL c -> strip_newline (c ++ [NL]) = cstr c.
Proof.
  intros H. destruct (cstr_app_nl c H) as [E | [E1 E2]].
  - unfold strip_newline. rewrite E. fold (strip_newline c).
    apply strip_newline_nonl. auto.
  - unfold strip_newline. rewrite E1, length_app, last_last, removelast_last.
    simpl. rewrite Nat.add_comm. simpl.
    unfold ascii_eqb; destruct (ascii_dec NL NL); [|congruence]. simpl. auto.
Qed.

(** What the loop stores for one [fgets] chunk: at most [n] bytes, no
    newline. *)
Lemma strip_newline_chunk n s chunk rest :
  take_line n s = (chunk, rest) ->
  List.length (strip_newline chunk) <= n /\ ~ In NL (strip_newline chunk).
Proof.
  intros Ht. destruct (take_line_shape _ _ _ _ Ht) as [_ [Hlen Hsh]].
  destruct Hsh as [[c [-> Hc]] | Hc].
  - rewrite strip_newline_nl by auto. split; [|apply no_nl_cstr; auto].
    pose proof (cstr_length c). rewrite length_app in Hlen. lia.
  - rewrite strip_newline_nonl by auto. split; [|apply no_nl_cstr; auto].
    pose proof (cstr_length chunk). lia.
Qed.

(** *** Lines of a file *)

Lemma lines_of_app_nl l r :
  ~ In NL l -> lines_of (l ++ NL :: r) = l :: lines_of r.
Proof.
  induction l as [|c l IH]; simpl; intros H.
  - unfold ascii_eqb; destruct (ascii_dec NL NL); congruence.
  - eqb_cases c NL; [exfalso; auto|]. rewrite IH; auto.
Qed.

Lemma lines_of_nonl l : ~ In NL l -> l <> [] -> lines_of l = [l].
Proof.
  induction l as [|c l IH]; simpl; intros H Hne; [congruence|].
  eqb_cases c NL; [exfalso; auto|].
  destruct l as [|c' l]; [reflexivity|].
  rewrite IH by (auto || discriminate). reflexivity.
Qed.

Lemma split_first_nl s :
  In NL s -> exists l r, s = l ++ NL :: r /\ ~ In NL l.
Proof.
  induction s as [|c s IH]; simpl; intros H; [contradiction|].
  destruct (ascii_dec c NL) as [->|Hc].
  - exists [], s. split; auto.
  - destruct H as [H|H]; [congruence|].
    destruct (IH H) as (l & r & -> & Hl).
    exists (c :: l), r. split; auto. simpl. intros [?|?]; auto.
Qed.

Lemma lines_of_render ls :
  Forall (fun l => ~ In NL l) ls -> lines_of (render ls) = map cstr ls.
Proof.
  unfold render. induction 1 as [|l ls Hl Hls IH]; simpl; auto.
  rewrite <- app_assoc. simpl. rewrite lines_of_app_nl by (apply no_nl_cstr; auto).
  f_equal. exact IH.
Qed.

Lemma is_keys_line_cstr l : is_keys_line (cstr l) = is_keys_line l.
Proof. unfold is_keys_line, strncmp_eq. rewrite cstr_idem. reflexivity. Qed.

(** *** The read loop *)

Lemma fgets_some s : s <> [] -> fgets s = Some (take_line (MAX_LINE_LENGTH - 1) s).
Proof. destruct s; [congruence|reflexivity]. Qed.

(** Whatever the input, every stored line has at most 1023 bytes and no
    newline. *)
Lemma read_loop_bounded fuel s acc k :
  Forall (fun l => List.length l <= MAX_LINE_LENGTH - 1 /\ ~ In NL l) acc ->
  Forall (fun l => List.length l <= MAX_LINE_LENGTH - 1 /\ ~ In NL l)
         (fst (read_loop fuel s acc k)).
Proof.
  revert s acc k; induction fuel as [|fuel IH]; intros s acc k Hacc; simpl; auto.
  destruct (fgets s) as [[chunk rest]|] eqn:Ef; simpl; auto.
  apply IH. apply Forall_app; split; auto. constructor; auto.
  destruct s as [|a s']; [discriminate|].
  rewrite fgets_some in Ef by discriminate.
  apply (strip_newline_chunk (MAX_LINE_LENGTH - 1) (a :: s') chunk rest).
  congruence.
Qed.

Lemma read_loop_nil fuel acc k : read_loop fuel [] acc k = (acc, k).
Proof. destruct fuel; reflexivity. Qed.

Lemma lines_of_length s : List.length (lines_of s) <= List.length s.
Proof.
  induction s as [|c s IH]; simpl; [lia|].
  destruct (ascii_eqb c NL); simpl; [lia|].
  destruct (lines_of s); simpl in *; lia.
Qed.

Lemma int_of_size_t_small n : (Z.of_nat n < 2 ^ 31)%Z -> int_of_size_t n = Z.of_nat n.
Proof.
  intros H. unfold int_of_size_t. rewrite Z.mod_small by lia.
  destruct (Z.ltb_spec (Z.of_nat n) (2 ^ 31)); lia.
Qed.

(** When every line fits in the buffer, the loop stores the lines of the
    file (as C strings), as many of them as [fgets] hands over before a
    read error, and ends with the index of the last keys line among them. *)
Lemma read_loop_short fuel s acc k :
  short_lines s ->
  read_loop fuel s acc k =
  (acc ++ firstn fuel (map cstr (lines_of s)),
   scan_keys (List.length acc) (firstn fuel (map cstr (lines_of s))) k).
Proof.
  revert s acc k; induction fuel as [|fuel IH]; intros s acc k Hs.
  { simpl. rewrite app_nil_r. reflexivity. }
  destruct s as [|c s'] eqn:Es.
  { simpl. rewrite app_nil_r. reflexivity. }
  rewrite <- Es in *. simpl read_loop.
  rewrite fgets_some by (subst; discriminate).
  destruct (in_dec ascii_dec NL s) as [Hin|Hnin].
  - destruct (split_first_nl s Hin) as (l & r & Hlr & Hl).
    unfold short_lines in Hs. rewrite Hlr, lines_of_app_nl in Hs by auto.
    inversion Hs as [|? ? Hlen Hr]; subst.
    rewrite Hlr, take_line_line by (auto || (unfold MAX_LINE_LENGTH in *; lia)).
    rewrite strip_newline_nl by auto.
    rewrite lines_of_app_nl by auto.
    rewrite IH by exact Hr.
    cbn [map firstn scan_keys]. rewrite <- app_assoc, length_app. cbn [app List.length].
    rewrite Nat.add_comm. reflexivity.
  - assert (Hne : s <> []) by (subst; discriminate).
    pose proof (lines_of_nonl s Hnin Hne) as Hl.
    unfold short_lines in Hs. rewrite Hl in Hs. inversion Hs as [|? ? Hlen _]; subst.
    rewrite take_line_last by (auto || (unfold MAX_LINE_LENGTH in *; lia)).
    rewrite strip_newline_nonl by auto. rewrite Hl, read_loop_nil.
    cbn [map firstn]. rewrite firstn_nil. reflexivity.
Qed.

Lemma read_budget_all st :
  read_fails_after st = None ->
  firstn (read_budget st) (map cstr (lines_of (data st))) = map cstr (lines_of (data st)).
Proof.
  intros H. unfold read_budget. rewrite H. apply firstn_all2.
  rewrite length_map. pose proof (lines_of_length (data st)). lia.
Qed.

Lemma read_phase_short st :
  short_lines (data st) ->
  read_phase st =
  (firstn (read_budget st) (map cstr (lines_of (data st))),
   scan_keys 0 (firstn (read_budget st) (map cstr (lines_of (data st)))) (-1)).
Proof. intros H. unfold read_phase. rewrite read_loop_short; auto. Qed.

(** Every successful [fgets] consumes at least one byte: no more lines are
    stored than there are bytes, nor than calls allowed. *)
Lemma take_line_progress n c s chunk rest :
  take_line (S n) (c :: s) = (chunk, rest) -> List.length rest <= List.length s.
Proof.
  intros H. destruct (take_line_shape _ _ _ _ H) as [Hcat _].
  simpl in H. destruct (ascii_eqb c NL).
  - inversion H; subst. lia.
  - destruct (take_line n s) as [l r]. inversion H; subst.
    apply (f_equal (@List.length ascii)) in Hcat. rewrite length_app in Hcat.
    simpl in Hcat. lia.
Qed.

Lemma read_loop_length fuel s acc k :
  List.length (fst (read_loop fuel s acc k)) <=
  List.length acc + Nat.min fuel (List.length s).
Proof.
  revert s acc k; induction fuel as [|fuel IH]; intros s acc k; [simpl; lia|].
  destruct s as [|c s']; [simpl; lia|].
  cbn [read_loop]. rewrite fgets_some by discriminate.
  destruct (take_line (MAX_LINE_LENGTH - 1) (c :: s')) as [chunk rest] eqn:Et.
  assert (Hr : List.length rest <= List.length s').
  { replace (MAX_LINE_LENGTH - 1) with (S 1022) in Et by reflexivity.
    eapply take_line_progress. exact Et. }
  etransitivity; [apply IH|]. rewrite length_app. cbn [List.length]. lia.
Qed.

(** *** The keys index and the last keys line *)

Lemma scan_keys_none b ls k :
  Forall (fun l => is_keys_line l = false) ls -> scan_keys b ls k = k.
Proof.
  intros H; revert b; induction H as [|l ls Hl Hls IH]; intros b; simpl; auto.
  rewrite Hl. apply IH.
Qed.

Lemma scan_keys_last b pre l post k :
  is_keys_line l = true -> Forall (fun x => is_keys_line x = false) post ->
  scan_keys b (pre ++ l :: post) k = int_of_size_t (b + List.length pre).
Proof.
  intros Hl Hpost. revert b k; induction pre as [|x pre IH]; intros b k; simpl.
  - rewrite Hl, scan_keys_none by auto. f_equal; lia.
  - rewrite IH. f_equal; lia.
Qed.

Lemma last_keys_line_none ls :
  Forall (fun l => is_keys_line l = false) ls -> last_keys_line ls = None.
Proof. induction 1 as [|l ls Hl Hls IH]; simpl; auto. rewrite IH, Hl. reflexivity. Qed.

Lemma last_keys_line_app pre l post :
  is_keys_line l = true -> Forall (fun x => is_keys_line x = false) post ->
  last_keys_line (pre ++ l :: post) = Some l.
Proof.
  intros Hl Hpost. induction pre as [|x pre IH]; simpl.
  - rewrite last_keys_line_none, Hl; auto.
  - rewrite IH. reflexivity.
Qed.

Lemma last_keys_line_some ls l :
  last_keys_line ls = Some l ->
  exists pre post, ls = pre ++ l :: post /\ is_keys_line l = true /\
                   Forall (fun x => is_keys_line x = false) post.
Proof.
  revert l; induction ls as [|x ls IH]; intros l H; simpl in H; [discriminate|].
  destruct (last_keys_line ls) as [y|] eqn:E.
  - injection H as <-. destruct (IH y eq_refl) as (pre & post & -> & Hy & Hp).
    exists (x :: pre), post. auto.
  - destruct (is_keys_line x) eqn:Ex; [|discriminate]. injection H as <-.
    exists [], ls. repeat split; auto.
    clear -E. induction ls as [|z ls IH]; auto. simpl in E.
    destruct (last_keys_line ls); [discriminate|].
    destruct (is_keys_line z) eqn:Ez; [discriminate|]. auto.
Qed.

(** *** Lines and bytes *)

Lemma lines_of_in s l x : In l (lines_of s) -> In x l -> In x s.
Proof.
  revert l; induction s as [|c s IH]; intros l Hl Hx; simpl in *; [contradiction|].
  destruct (ascii_eqb c NL).
  - destruct Hl as [<-|Hl]; [contradiction|]. right. eapply IH; eauto.
  - destruct (lines_of s) as [|l' ls] eqn:E.
    + destruct Hl as [<-|[]]. destruct Hx as [->|[]]. left; reflexivity.
    + destruct Hl as [<-|Hl].
      * destruct Hx as [->|Hx]; auto. right. eapply IH; [left; reflexivity|exact Hx].
      * right. eapply IH; [right; exact Hl|exact Hx].
Qed.

Lemma lines_of_no_nl s l : In l (lines_of s) -> ~ In NL l.
Proof.
  revert l; induction s as [|c s IH]; intros l Hl; simpl in *; [contradiction|].
  eqb_cases c NL.
  - destruct Hl as [<-|Hl]; [intros []|]. auto.
  - destruct (lines_of s) as [|l' ls] eqn:Els.
    + destruct Hl as [<-|[]]. intros [H|[]]; auto.
    + destruct Hl as [<-|Hl].
      * intros [H|H]; [auto|]. eapply IH; [left; reflexivity|exact H].
      * apply IH. right. exact Hl.
Qed.

Lemma map_cstr_text s : text_file s -> map cstr (lines_of s) = lines_of s.
Proof.
  intros H. rewrite <- (map_id (lines_of s)) at 2. apply map_ext_in.
  intros l Hl. apply cstr_nonul.
  intros Hin. apply H. eapply lines_of_in; eauto.
Qed.

(** *** Tokens *)

Lemma not_in_charset c : existsb (ascii_eqb c) charset = false -> ~ In c charset.
Proof.
  intros H Hin. assert (existsb (ascii_eqb c) charset = true); [|congruence].
  apply existsb_exists. exists c. split; auto. apply ascii_eqb_true. reflexivity.
Qed.

Lemma token_ok_in t c : token_ok t = true -> In c t -> In c charset.
Proof.
  unfold token_ok. intros H Hc. apply andb_prop in H as [_ H].
  rewrite forallb_forall in H. specialize (H c Hc).
  apply existsb_exists in H as (c' & Hin & E). apply ascii_eqb_true in E. congruence.
Qed.

Lemma token_ok_length t : token_ok t = true -> List.length t = KEY_LENGTH.
Proof. unfold token_ok. intros H. apply andb_prop in H as [H _]. apply Nat.eqb_eq, H. Qed.

Lemma token_ok_no_nl t : token_ok t = true -> ~ In NL t.
Proof. intros H Hin. apply (not_in_charset NL eq_refl). eapply token_ok_in; eauto. Qed.

Lemma token_ok_no_nul t : token_ok t = true -> ~ In NUL t.
Proof. intros H Hin. apply (not_in_charset NUL eq_refl). eapply token_ok_in; eauto. Qed.

Lemma token_ok_no_comma t : token_ok t = true -> ~ In COMMA t.
Proof. intros H Hin. apply (not_in_charset COMMA eq_refl). eapply token_ok_in; eauto. Qed.

(** What [key_line_index] holds after reading [lines]: -1 when none of
    them is a keys line, otherwise the [int] conversion of the index of the
    last one. *)
Definition index_ok (lines : list bytes) (k : Z) : Prop :=
  (k = (-1)%Z /\ Forall (fun l => is_keys_line l = false) lines) \/
  (exists i, k = int_of_size_t i /\ i < List.length lines /\
             is_keys_line (nth i lines []) = true /\
             forall j, i < j < List.length lines -> is_keys_line (nth j lines []) = false).

Lemma index_ok_snoc lines k line :
  index_ok lines k ->
  index_ok (lines ++ [line])
           (if is_keys_line line then int_of_size_t (List.length lines) else k).
Proof.
  intros H. destruct (is_keys_line line) eqn:El.
  - right. exists (List.length lines). rewrite length_app. simpl.
    split; [reflexivity|]. split; [lia|].
    rewrite app_nth2, Nat.sub_diag by lia. split; [exact El|]. intros j Hj. lia.
  - destruct H as [[-> Hn] | (i & -> & Hi & Hk & Hlast)].
    + left. split; auto. apply Forall_app; split; auto.
    + right. exists i. rewrite length_app. simpl. split; [reflexivity|].
      split; [lia|]. rewrite app_nth1 by lia. split; [exact Hk|].
      intros j Hj. destruct (Nat.lt_ge_cases j (List.length lines)).
      * rewrite app_nth1 by lia. apply Hlast. lia.
      * replace j with (List.length lines) by lia.
        rewrite app_nth2, Nat.sub_diag by lia. exact El.
Qed.

Lemma read_loop_index fuel s lines k :
  index_ok lines k ->
  let (lines', k') := read_loop fuel s lines k in index_ok lines' k'.
Proof.
  revert s lines k; induction fuel as [|fuel IH]; intros s lines k H; simpl; auto.
  destruct (fgets s) as [[chunk rest]|]; auto.
  apply IH. apply index_ok_snoc. exact H.
Qed.

Lemma read_phase_index st : index_ok (fst (read_phase st)) (snd (read_phase st)).
Proof.
  unfold read_phase. pose proof (read_loop_index (read_budget st) (data st) [] (-1)%Z) as H.
  destruct (read_loop (read_budget st) (data st) [] (-1)%Z). apply H.
  left. split; [reflexivity|constructor].
Qed.

Lemma read_phase_length st :
  List.length (fst (read_phase st)) <= Nat.min (read_budget st) (List.length (data st)).
Proof. unfold read_phase. apply read_loop_length. Qed.

(** With at most [2^31] stored lines the index is that of a stored line
    (or -1), and the edit is defined. *)
Lemma index_ok_defined lines k :
  index_ok lines k -> (Z.of_nat (List.length lines) <= 2 ^ 31)%Z ->
  edit_undefined lines k = false.
Proof.
  intros [[-> _] | (i & -> & Hi & _)] Hn; unfold edit_undefined; [reflexivity|].
  rewrite int_of_size_t_small by lia. unfold index_in_range.
  rewrite (proj2 (Z.leb_le _ _)), (proj2 (Z.ltb_lt _ _)) by lia.
  apply andb_false_r.
Qed.

Lemma read_phase_defined st :
  (Z.of_nat (List.length (fst (read_phase st))) <= 2 ^ 31)%Z ->
  edit_undefined (fst (read_phase st)) (snd (read_phase st)) = false.
Proof. apply index_ok_defined, read_phase_index. Qed.

(** *** The editor on files whose lines fit in the buffer *)

Lemma add_key_short api_key st :
  readable st = true -> writable st = true -> short_lines (data st) ->
  let ls := firstn (read_budget st) (map cstr (lines_of (data st))) in
  let k := scan_keys 0 ls (-1) in
  let ed := edit_phase api_key ls k in
  add_key_to_properties api_key st =
  {| ret := 0;
     disk := {| data := written st (render (fst ed)); readable := readable st;
                writable := writable st; quota := quota st;
                read_fails_after := read_fails_after st |};
     err := snd ed;
     ub := edit_undefined ls k |}.
Proof.
  intros Hr Hw Hs ls k ed. unfold add_key_to_properties.
  rewrite Hr. simpl negb. cbv iota.
  rewrite read_phase_short by exact Hs. fold ls. fold k.
  subst ed. destruct (edit_phase api_key ls k) as [lines' warn].
  rewrite Hw. reflexivity.
Qed.

Lemma Forall_firstn {A} (P : A -> Prop) n l : Forall P l -> Forall P (firstn n l).
Proof.
  rewrite !Forall_forall. intros H x Hx. apply H. eapply in_firstn; eauto.
Qed.

Definition clean (l : bytes) : Prop := ~ In NL l /\ ~ In NUL l.

Lemma lines_of_render_clean ls : Forall clean ls -> lines_of (render ls) = ls.
Proof.
  intros H. rewrite lines_of_render.
  - rewrite <- (map_id ls) at 2. apply map_ext_in. intros l Hl.
    apply cstr_nonul. rewrite Forall_forall in H. apply (H l Hl).
  - eapply Forall_impl; [|exact H]. intros l [? ?]; auto.
Qed.

Lemma clean_snprintf s : clean s -> clean (snprintf_line s).
Proof. intros [H1 H2]. split; intros Hin; [apply H1|apply H2]; eapply in_firstn; eauto. Qed.

Lemma clean_app a b : clean a -> clean b -> clean (a ++ b).
Proof.
  intros [A1 A2] [B1 B2]. split; intros Hin; apply in_app_or in Hin; intuition.
Qed.

Lemma clean_comma : clean [COMMA].
Proof. split; intros [H|[]]; discriminate. Qed.

Lemma clean_token t : token_ok t = true -> clean t.
Proof. split; [apply token_ok_no_nl | apply token_ok_no_nul]; auto. Qed.

Lemma clean_keys_prefix : clean keys_prefix.
Proof. split; cbv; intuition discriminate. Qed.

Lemma clean_lines s : text_file s -> Forall clean (lines_of s).
Proof.
  intros H. apply Forall_forall. intros l Hl. split.
  - eapply lines_of_no_nl; eauto.
  - intros Hin. apply H. eapply lines_of_in; eauto.
Qed.

Lemma keys_prefix_snprintf s :
  is_keys_line s = true -> clean s -> is_keys_line (snprintf_line s) = true.
Proof.
  unfold is_keys_line, strncmp_eq, snprintf_line. intros H [_ Hs].
  rewrite cstr_nonul in * by (auto || (intros Hin; apply Hs; eapply in_firstn; eauto)).
  rewrite firstn_firstn. exact H.
Qed.

(** The last keys line is extended by [,T], cut to 1023 bytes; every other
    line stays as it was. *)
Lemma add_key_keys_line T st pre l post :
  readable st = true -> writable st = true -> quota st = None ->
  read_fails_after st = None ->
  (Z.of_nat (List.length (lines_of (data st))) <= 2 ^ 31)%Z ->
  short_lines (data st) -> text_file (data st) ->
  lines_of (data st) = pre ++ l :: post ->
  is_keys_line l = true -> Forall (fun x => is_keys_line x = false) post ->
  token_ok T = true ->
  let r := add_key_to_properties T st in
  let l' := snprintf_line (l ++ COMMA :: T) in
  (ret r = 0)%Z /\ err r = [] /\
  data (disk r) = render (pre ++ l' :: post) /\
  lines_of (data (disk r)) = pre ++ l' :: post.
Proof.
  intros Hr Hw Hq Hrf Hn Hs Ht Hls Hl Hpost HT r l'.
  assert (Hpre : (Z.of_nat (List.length pre) < 2 ^ 31)%Z).
  { rewrite Hls, length_app in Hn. simpl in Hn. lia. }
  pose proof (clean_lines _ Ht) as Hc. rewrite Hls in Hc.
  apply Forall_app in Hc as [Hcpre Hc]. inversion Hc as [|? ? Hcl Hcpost]; subst.
  subst r. rewrite add_key_short by auto.
  rewrite read_budget_all, map_cstr_text, Hls by auto.
  rewrite scan_keys_last, Nat.add_0_l, int_of_size_t_small by auto.
  assert (Hk : (Z.of_nat (List.length pre) =? -1)%Z = false) by (apply Z.eqb_neq; lia).
  unfold edit_phase. rewrite Hk. simpl fst; simpl snd. rewrite Nat2Z.id, nth_app_len, set_nth_app.
  rewrite (cstr_nonul l), (cstr_nonul T) by (apply Hcl || apply clean_token; auto).
  unfold written; rewrite Hq. simpl. fold l'.
  repeat split; auto.
  apply lines_of_render_clean. apply Forall_app; split; auto. constructor; auto.
  apply clean_snprintf. apply clean_app; auto.
  apply (clean_app [COMMA] T clean_comma (clean_token T HT)).
Qed.

(** Without a keys line, [api.security.keys=T] is added after the lines
    read. *)
Lemma add_key_no_keys_line T st :
  readable st = true -> writable st = true -> quota st = None ->
  short_lines (data st) ->
  Forall (fun x => is_keys_line x = false) (lines_of (data st)) ->
  token_ok T = true ->
  let r := add_key_to_properties T st in
  (ret r = 0)%Z /\ err r = [warning_missing] /\
  lines_of (data (disk r)) =
  firstn (read_budget st) (map cstr (lines_of (data st))) ++ [keys_prefix ++ T].
Proof.
  intros Hr Hw Hq Hs Hnone HT r. subst r.
  rewrite add_key_short by auto.
  rewrite scan_keys_none.
  2:{ apply Forall_firstn, Forall_map. eapply Forall_impl; [|exact Hnone].
      intros x Hx. rewrite is_keys_line_cstr. exact Hx. }
  unfold edit_phase. rewrite Z.eqb_refl. cbn [fst snd ret disk data err].
  unfold written; rewrite Hq.
  assert (Hsn : snprintf_line (keys_prefix ++ cstr T) = keys_prefix ++ T).
  { rewrite (cstr_nonul T) by (apply token_ok_no_nul; auto).
    unfold snprintf_line. apply firstn_all2.
    rewrite length_app, (token_ok_length T HT).
    replace (List.length keys_prefix) with 18 by reflexivity.
    unfold KEY_LENGTH, MAX_LINE_LENGTH. lia. }
  rewrite Hsn.
  repeat split; auto.
  rewrite lines_of_render.
  - rewrite map_app, firstn_map, map_map. f_equal.
    + apply map_ext. apply cstr_idem.
    + cbn [map]. f_equal. apply cstr_nonul.
      apply (clean_app _ _ clean_keys_prefix (clean_token T HT)).
  - apply Forall_app; split.
    + apply Forall_firstn, Forall_map, Forall_forall. intros l Hl. apply no_nl_cstr.
      eapply lines_of_no_nl; eauto.
    + constructor; auto. apply (clean_app _ _ clean_keys_prefix (clean_token T HT)).
Qed.

(** *** Keys lines, values and the rendering *)

Lemma is_keys_line_prefix v : is_keys_line (keys_prefix ++ v) = true.
Proof.
  unfold is_keys_line, strncmp_eq.
  rewrite cstr_app_nonul by apply clean_keys_prefix.
  rewrite firstn_app. reflexivity.
Qed.

Lemma keys_prefix_firstn : firstn 18 (cstr keys_prefix) = keys_prefix.
Proof. reflexivity. Qed.

Lemma keys_prefix_length : List.length keys_prefix = 18.
Proof. reflexivity. Qed.

Lemma is_keys_line_app l x :
  is_keys_line l = true -> clean l -> is_keys_line (l ++ x) = true.
Proof.
  unfold is_keys_line, strncmp_eq. intros H [_ Hl].
  destruct (list_eq_dec ascii_dec (firstn 18 (cstr l)) (firstn 18 (cstr keys_prefix)))
    as [E|]; [|discriminate].
  rewrite keys_prefix_firstn in *. rewrite (cstr_nonul l) in E by auto.
  assert (Hlen : 18 <= List.length l).
  { apply (f_equal (@List.length ascii)) in E. rewrite length_firstn in E.
    rewrite keys_prefix_length in E. lia. }
  rewrite cstr_app_nonul by auto. rewrite firstn_app, E.
  replace (18 - List.length l) with 0 by lia. simpl firstn. rewrite app_nil_r.
  destruct (list_eq_dec _ _ _) as [|n]; [reflexivity|]. exfalso; apply n; reflexivity.
Qed.

Lemma keys_line_length l : is_keys_line l = true -> 18 <= List.length l.
Proof.
  unfold is_keys_line, strncmp_eq. intros H.
  destruct (list_eq_dec ascii_dec (firstn 18 (cstr l)) (firstn 18 (cstr keys_prefix)))
    as [E|]; [|discriminate].
  rewrite keys_prefix_firstn in E.
  apply (f_equal (@List.length ascii)) in E. rewrite length_firstn in E.
  rewrite keys_prefix_length in E. pose proof (cstr_length l). lia.
Qed.

Lemma last_keys_line_none_inv ls :
  last_keys_line ls = None -> Forall (fun l => is_keys_line l = false) ls.
Proof.
  induction ls as [|l ls IH]; simpl; intros H; auto.
  destruct (last_keys_line ls); [discriminate|].
  destruct (is_keys_line l) eqn:E; [discriminate|]. auto.
Qed.

Lemma split_on_nonempty sep s : split_on sep s <> [].
Proof.
  induction s as [|c s IH]; simpl; [discriminate|].
  destruct (ascii_eqb c sep); [discriminate|].
  destruct (split_on sep s); [discriminate|discriminate].
Qed.

Lemma split_on_nosep sep t : ~ In sep t -> split_on sep t = [t].
Proof.
  induction t as [|c t IH]; simpl; intros H; auto.
  eqb_cases c sep; [exfalso; auto|]. rewrite IH; auto.
Qed.

(** Appending [,t] to a value adds [t] as its last element. *)
Lemma split_on_app_sep sep v t :
  ~ In sep t -> split_on sep (v ++ sep :: t) = split_on sep v ++ [t].
Proof.
  intros Ht. induction v as [|c v IH]; simpl.
  - unfold ascii_eqb; destruct (ascii_dec sep sep); [|congruence].
    rewrite split_on_nosep; auto.
  - destruct (ascii_eqb c sep); [rewrite IH; reflexivity|].
    rewrite IH. pose proof (split_on_nonempty sep v) as Hne.
    destruct (split_on sep v); [congruence|]. reflexivity.
Qed.

Lemma Forall_set_nth {A} (P : A -> Prop) i l x :
  Forall P l -> P x -> Forall P (set_nth i l x).
Proof.
  intros Hl Hx. revert i; induction Hl as [|y l Hy Hl IH]; intros [|i]; simpl;
    constructor; auto.
Qed.

Lemma render_clean ls :
  Forall clean ls -> render ls = List.concat (map (fun l => l ++ [NL]) ls).
Proof.
  unfold render. induction 1 as [|l ls [_ Hl] _ IH]; simpl; auto.
  rewrite cstr_nonul by auto. rewrite IH. reflexivity.
Qed.

(** *** Decision procedures for concrete files *)

Definition short_linesb (s : bytes) : bool :=
  forallb (fun l => List.length l <=? MAX_LINE_LENGTH - 2) (lines_of s).

Lemma short_linesb_ok s : short_linesb s = true -> short_lines s.
Proof.
  unfold short_linesb, short_lines. intros H. apply Forall_forall.
  intros l Hl. rewrite forallb_forall in H. apply Nat.leb_le, H, Hl.
Qed.

Definition text_fileb (s : bytes) : bool := negb (existsb (ascii_eqb NUL) s).

Lemma text_fileb_ok s : text_fileb s = true -> text_file s.
Proof.
  unfold text_fileb, text_file. intros H Hin.
  assert (E : existsb (ascii_eqb NUL) s = true).
  { apply existsb_exists. exists NUL. split; [exact Hin|].
    unfold ascii_eqb; destruct (ascii_dec NUL NUL); congruence. }
  rewrite E in H. discriminate.
Qed.

Definition no_keysb (ls : list bytes) : bool := forallb (fun l => negb (is_keys_line l)) ls.

Lemma no_keysb_ok ls : no_keysb ls = true -> Forall (fun l => is_keys_line l = false) ls.
Proof.
  unfold no_keysb. intros H. apply Forall_forall. intros l Hl.
  rewrite forallb_forall in H. apply negb_true_iff, H, Hl.
Qed.

Definition memb (l : bytes) (ls : list bytes) : bool :=
  existsb (fun x => if list_eq_dec ascii_dec x l then true else false) ls.

Lemma memb_false l ls : memb l ls = false -> ~ In l ls.
Proof.
  unfold memb. intros H Hin.
  assert (existsb (fun x => if list_eq_dec ascii_dec x l then true else false) ls = true)
    as E; [|congruence].
  apply existsb_exists. exists l. split; auto.
  destruct (list_eq_dec ascii_dec l l); congruence.
Qed.

(** *** The generator and [main] *)

Lemma charset_length : List.length charset = 62.
Proof. reflexivity. Qed.

Lemma key_char_in e n i : In (key_char e n i) charset.
Proof.
  unfold key_char. apply nth_In. unfold charset_size. rewrite charset_length.
  apply Nat.mod_upper_bound. discriminate.
Qed.

Lemma generate_api_key_shape e n key :
  generate_api_key e n = Some key ->
  List.length key = n /\ forall c, In c key -> In c charset.
Proof.
  unfold generate_api_key. destruct (urandom_opens e); [|discriminate].
  intros H. injection H as <-. rewrite length_map, length_seq. split; auto.
  intros c Hc. apply in_map_iff in Hc as (i & <- & _). apply key_char_in.
Qed.

Lemma generate_token_ok e key :
  generate_api_key e KEY_LENGTH = Some key -> token_ok key = true.
Proof.
  intros H. apply generate_api_key_shape in H as [Hl Hc].
  unfold token_ok. rewrite Hl, Nat.eqb_refl, andb_true_l.
  apply forallb_forall. intros c Hin.
  apply existsb_exists. exists c. split; [apply Hc, Hin|].
  unfold ascii_eqb; destruct (ascii_dec _ _); congruence.
Qed.

Lemma main_success e st key :
  generate_api_key e KEY_LENGTH = Some key ->
  ret (add_key_to_properties key st) = 0%Z ->
  exit_status (main e st) = 0%Z /\
  disk_after (main e st) = disk (add_key_to_properties key st) /\
  stderr (main e st) = err (add_key_to_properties key st).
Proof.
  intros Hg Hr. unfold main. rewrite Hg.
  destruct (add_key_to_properties key st) as [rt d er]. simpl in Hr. subst rt.
  simpl. auto.
Qed.

(** When the file cannot be opened for reading, [main] exits with 1 and
    the file is left as it was. *)
Lemma main_unreadable e st :
  readable st = false ->
  exit_status (main e st) = 1%Z /\ disk_after (main e st) = st.
Proof.
  intros H. unfold main. destruct (generate_api_key e KEY_LENGTH); simpl; auto.
  unfold add_key_to_properties. rewrite H. simpl. auto.
Qed.

(** ** Concrete inputs *)

(** A file made of the given lines, each ended by a newline. *)
Definition text_of (ls : list string) : bytes :=
  List.concat (map (fun s => list_ascii_of_string s ++ [NL]) ls).

Definition file (s : bytes) : fs :=
  {| data := s; readable := true; writable := true; quota := None;
     read_fails_after := None |}.

Definition tokA : bytes := repeat "A"%char KEY_LENGTH.

(** An entropy source that delivers 32 zero bytes. *)
Definition urandom_zeros : entropy :=
  {| urandom_opens := true; urandom_read := Some (repeat Byte.x00 KEY_LENGTH);
     stale := fun _ => Byte.x00 |}.

(** ** Claims *)

(** C1 (refutation): with two keys lines, the first one is left as it was
    and the second one is the line that gets the token. *)
Lemma C1_counterexample :
  let F := text_of ["api.security.keys=a"; "api.security.keys=b"]%string in
  let out := lines_of (data (disk (add_key_to_properties tokA (file F)))) in
  nth 0 out [] = nth 0 (lines_of F) [] /\ nth 1 out [] <> nth 1 (lines_of F) [].
Proof.
  split; [vm_compute; reflexivity|]. vm_compute. intros H. discriminate.
Qed.

(** C1 (amended): when the file holds keys lines, the LAST one is the line
    the editor extends with [,T] (cut to the 1023 bytes of [new_line]); every
    other line, earlier keys lines included, is kept verbatim and in place.
    For a text file with lines of at most 1022 bytes, no read error and at
    most [2^31] lines, so that [key_line_index] holds the line's index. *)
Theorem C1_last_keys_line_mutated T st pre l post :
  readable st = true -> writable st = true -> quota st = None ->
  read_fails_after st = None ->
  (Z.of_nat (List.length (lines_of (data st))) <= 2 ^ 31)%Z ->
  short_lines (data st) -> text_file (data st) ->
  lines_of (data st) = pre ++ l :: post ->
  is_keys_line l = true -> Forall (fun x => is_keys_line x = false) post ->
  token_ok T = true ->
  lines_of (data (disk (add_key_to_properties T st))) =
  pre ++ snprintf_line (l ++ COMMA :: T) :: post.
Proof.
  intros Hr Hw Hq Hrf Hn Hs Ht Hls Hl Hp HT.
  apply (add_key_keys_line T st pre l post); auto.
Qed.

Lemma C1_witness :
  lines_of (data (disk (add_key_to_properties tokA
    (file (text_of ["x=1"; "api.security.keys=a"; "api.security.keys=b"]%string))))) =
  [list_ascii_of_string "x=1"; list_ascii_of_string "api.security.keys=a";
   snprintf_line (list_ascii_of_string "api.security.keys=b" ++ COMMA :: tokA)].
Proof.
  apply (C1_last_keys_line_mutated tokA _
           [list_ascii_of_string "x=1"; list_ascii_of_string "api.security.keys=a"]
           (list_ascii_of_string "api.security.keys=b") []).
  - reflexivity.
  - reflexivity.
  - reflexivity.
  - reflexivity.
  - apply Z.leb_le. vm_compute. reflexivity.
  - apply short_linesb_ok. vm_compute. reflexivity.
  - apply text_fileb_ok. vm_compute. reflexivity.
  - vm_compute. reflexivity.
  - vm_compute. reflexivity.
  - constructor.
  - vm_compute. reflexivity.
Defined.

(** C2 (refutation): a keys line of 1018 bytes does not read
    [api.security.keys=<v>,T] afterwards: [snprintf] cuts it at 1023 bytes. *)
Lemma C2_counterexample :
  let v := repeat "a"%char 1000 in
  let F := keys_prefix ++ v ++ [NL] in
  lines_of F = [keys_prefix ++ v] /\
  lines_of (data (disk (add_key_to_properties tokA (file F)))) <>
  [keys_prefix ++ v ++ COMMA :: tokA].
Proof.
  split; [vm_compute; reflexivity|].
  intros H. apply (f_equal (fun o => List.length (hd [] o))) in H.
  vm_compute in H. discriminate.
Qed.

(** C2 (amended): when the extended keys line fits in 1023 bytes, the last
    keys line [api.security.keys=<v>] (v possibly empty) reads
    [api.security.keys=<v>,T] after the run (text file with lines of at most
    1022 bytes, no read error, at most [2^31] lines). *)
Theorem C2_append_token T st pre v post :
  readable st = true -> writable st = true -> quota st = None ->
  read_fails_after st = None ->
  (Z.of_nat (List.length (lines_of (data st))) <= 2 ^ 31)%Z ->
  short_lines (data st) -> text_file (data st) ->
  lines_of (data st) = pre ++ (keys_prefix ++ v) :: post ->
  Forall (fun x => is_keys_line x = false) post ->
  token_ok T = true ->
  List.length keys_prefix + List.length v + 1 + KEY_LENGTH <= MAX_LINE_LENGTH - 1 ->
  lines_of (data (disk (add_key_to_properties T st))) =
  pre ++ (keys_prefix ++ v ++ COMMA :: T) :: post.
Proof.
  intros Hr Hw Hq Hrf Hn Hs Ht Hls Hp HT Hfit.
  destruct (add_key_keys_line T st pre (keys_prefix ++ v) post) as (_ & _ & _ & E);
    auto using is_keys_line_prefix.
  rewrite E. unfold snprintf_line. rewrite firstn_all2, <- app_assoc; [reflexivity|].
  rewrite !length_app. simpl. rewrite (token_ok_length T HT).
  rewrite keys_prefix_length in *. unfold KEY_LENGTH, MAX_LINE_LENGTH in *. lia.
Qed.

(** The empty value: [api.security.keys=] becomes [api.security.keys=,T]. *)
Lemma C2_witness :
  lines_of (data (disk (add_key_to_properties tokA
    (file (text_of ["server.port=8080"; "api.security.keys="]%string))))) =
  [list_ascii_of_string "server.port=8080"; keys_prefix ++ [] ++ COMMA :: tokA].
Proof.
  apply (C2_append_token tokA _ [list_ascii_of_string "server.port=8080"] [] []).
  - reflexivity.
  - reflexivity.
  - reflexivity.
  - reflexivity.
  - apply Z.leb_le. vm_compute. reflexivity.
  - apply short_linesb_ok. vm_compute. reflexivity.
  - apply text_fileb_ok. vm_compute. reflexivity.
  - vm_compute. reflexivity.
  - constructor.
  - vm_compute. reflexivity.
  - vm_compute. lia.
Defined.

(** C3: from the 32 bytes [b_0..b_31] delivered by [/dev/urandom], the key
    has 32 characters, the i-th being [charset[b_i mod 62]]; every character
    lies in the alphabet. *)
Theorem C3_token_from_bytes e bs :
  urandom_opens e = true -> urandom_read e = Some bs -> List.length bs = KEY_LENGTH ->
  exists key,
    generate_api_key e KEY_LENGTH = Some key /\
    List.length key = KEY_LENGTH /\
    (forall i, i < KEY_LENGTH ->
       nth i key NUL = nth (Byte.to_nat (nth i bs Byte.x00) mod 62) charset NUL) /\
    Forall (fun c => In c charset) key.
Proof.
  intros Ho Hrd Hlen. exists (map (key_char e KEY_LENGTH) (seq 0 KEY_LENGTH)).
  split; [unfold generate_api_key; rewrite Ho; reflexivity|].
  split; [rewrite length_map, length_seq; reflexivity|]. split.
  - intros i Hi.
    rewrite (nth_indep _ NUL (key_char e KEY_LENGTH 0))
      by (rewrite length_map, length_seq; exact Hi).
    rewrite map_nth, seq_nth by exact Hi. simpl (0 + i).
    unfold key_char, buffer_after_read. rewrite Hrd, Hlen, Nat.min_id.
    apply Nat.ltb_lt in Hi. rewrite Hi. reflexivity.
  - apply Forall_forall. intros c Hc. apply in_map_iff in Hc as (i & <- & _).
    apply key_char_in.
Qed.

Lemma C3_witness :
  exists key,
    generate_api_key urandom_zeros KEY_LENGTH = Some key /\
    List.length key = KEY_LENGTH /\
    (forall i, i < KEY_LENGTH ->
       nth i key NUL =
       nth (Byte.to_nat (nth i (repeat Byte.x00 KEY_LENGTH) Byte.x00) mod 62) charset NUL) /\
    Forall (fun c => In c charset) key.
Proof.
  apply (C3_token_from_bytes urandom_zeros (repeat Byte.x00 KEY_LENGTH)).
  - reflexivity.
  - reflexivity.
  - reflexivity.
Defined.

(** C4 (refutation): a line of 1500 bytes, not a keys line, is not found in
    the rewritten file: [fgets] hands it over in pieces of 1023 bytes. *)
Lemma C4_counterexample :
  let L := repeat "a"%char 1500 in
  let F := L ++ [NL] in
  is_keys_line L = false /\ In L (lines_of F) /\
  ~ In L (lines_of (data (disk (add_key_to_properties tokA (file F))))).
Proof.
  split; [vm_compute; reflexivity|]. split; [vm_compute; left; reflexivity|].
  apply memb_false. vm_compute. reflexivity.
Qed.

(** C4 (amended): for a text file (no NUL byte) whose lines have at most
    1022 bytes, read without error and of at most [2^31] lines, the lines
    without the keys prefix are, in order and byte for byte, the same before
    and after the run. *)
Theorem C4_non_keys_lines_preserved T st :
  readable st = true -> writable st = true -> quota st = None ->
  read_fails_after st = None ->
  (Z.of_nat (List.length (lines_of (data st))) <= 2 ^ 31)%Z ->
  short_lines (data st) -> text_file (data st) -> token_ok T = true ->
  filter (fun l => negb (is_keys_line l))
         (lines_of (data (disk (add_key_to_properties T st)))) =
  filter (fun l => negb (is_keys_line l)) (lines_of (data st)).
Proof.
  intros Hr Hw Hq Hrf Hn Hs Ht HT.
  destruct (last_keys_line (lines_of (data st))) as [l|] eqn:E.
  - destruct (last_keys_line_some _ _ E) as (pre & post & Hls & Hl & Hp).
    destruct (add_key_keys_line T st pre l post) as (_ & _ & _ & Eo); auto.
    rewrite Eo, Hls, !filter_app. cbn [filter].
    assert (Hcl : clean l).
    { pose proof (clean_lines _ Ht) as Hc. rewrite Forall_forall in Hc.
      apply Hc. rewrite Hls. apply in_or_app. right. left. reflexivity. }
    rewrite keys_prefix_snprintf, Hl; [reflexivity| |].
    + apply is_keys_line_app; auto.
    + apply clean_app; auto. apply (clean_app [COMMA] T clean_comma (clean_token T HT)).
  - apply last_keys_line_none_inv in E.
    destruct (add_key_no_keys_line T st) as (_ & _ & Eo); auto.
    rewrite Eo, read_budget_all, map_cstr_text, filter_app by auto. cbn [filter].
    rewrite is_keys_line_prefix. cbn [negb]. apply app_nil_r.
Qed.

Lemma C4_witness :
  filter (fun l => negb (is_keys_line l))
    (lines_of (data (disk (add_key_to_properties tokA
      (file (text_of ["a=1"; "api.security.keys=k"; "b=2"; "#c"]%string)))))) =
  filter (fun l => negb (is_keys_line l))
    (lines_of (text_of ["a=1"; "api.security.keys=k"; "b=2"; "#c"]%string)).
Proof.
  apply C4_non_keys_lines_preserved.
  - reflexivity.
  - reflexivity.
  - reflexivity.
  - reflexivity.
  - apply Z.leb_le. vm_compute. reflexivity.
  - apply short_linesb_ok. vm_compute. reflexivity.
  - apply text_fileb_ok. vm_compute. reflexivity.
  - vm_compute. reflexivity.
Defined.

(** C5 (refutation): a file with a 1500-byte line is not rejected; the
    editor returns 0 and the line comes back as two lines. *)
Lemma C5_counterexample :
  let F := repeat "a"%char 1500 in
  MAX_LINE_LENGTH < List.length (hd [] (lines_of F)) /\
  ret (add_key_to_properties tokA (file F)) = 0%Z /\
  lines_of (data (disk (add_key_to_properties tokA (file F)))) =
  [repeat "a"%char 1023; repeat "a"%char 477; keys_prefix ++ tokA].
Proof. split; [vm_compute; lia|]. split; vm_compute; reflexivity. Qed.

Lemma edit_phase_bounded api_key lines k :
  Forall (fun l => List.length l <= MAX_LINE_LENGTH - 1 /\ ~ In NL l) lines ->
  ~ In NL api_key ->
  Forall (fun l => List.length l <= MAX_LINE_LENGTH - 1 /\ ~ In NL l)
         (fst (edit_phase api_key lines k)).
Proof.
  intros Hl HT.
  assert (Hnew : forall x, ~ In NL x ->
            List.length (snprintf_line x) <= MAX_LINE_LENGTH - 1 /\
            ~ In NL (snprintf_line x)).
  { intros x Hx. split; [apply firstn_le_length|].
    intros Hin. apply Hx. eapply in_firstn; eauto. }
  assert (HcT : ~ In NL (cstr api_key)) by (apply no_nl_cstr; auto).
  unfold edit_phase. destruct (k =? -1)%Z; cbn [fst].
  - apply Forall_app; split; auto. constructor; auto. apply Hnew.
    intros Hin; apply in_app_or in Hin as [Hin|Hin];
      [apply (proj1 clean_keys_prefix)|apply HcT]; auto.
  - apply Forall_set_nth; auto. apply Hnew.
    assert (Ho : ~ In NL (nth (Z.to_nat k) lines [])).
    { destruct (nth_in_or_default (Z.to_nat k) lines []) as [Hin | ->].
      - rewrite Forall_forall in Hl. apply (Hl _ Hin).
      - intros []. }
    apply no_nl_cstr in Ho.
    intros Hin; apply in_app_or in Hin as [Hin|[Hin|Hin]]; auto. discriminate.
Qed.

(** C5 (amended): no input is refused for the length of its lines.  Once
    a file of at most [2^31] bytes opens for reading and for writing the
    editor runs without undefined behaviour and returns 0, and every line of
    the rewritten file has at most 1023 bytes: a longer source line is read
    by [fgets] in pieces, each written back as a line. *)
Theorem C5_no_line_length_error T st :
  readable st = true -> writable st = true -> quota st = None -> ~ In NL T ->
  (Z.of_nat (List.length (data st)) <= 2 ^ 31)%Z ->
  let r := add_key_to_properties T st in
  ub r = false /\ ret r = 0%Z /\
  Forall (fun l => List.length l <= MAX_LINE_LENGTH - 1) (lines_of (data (disk r))).
Proof.
  intros Hr Hw Hq HT Hn r. subst r.
  assert (Hd : edit_undefined (fst (read_phase st)) (snd (read_phase st)) = false).
  { apply read_phase_defined. pose proof (read_phase_length st). lia. }
  unfold add_key_to_properties.
  rewrite Hr. simpl negb. cbv iota.
  destruct (read_phase st) as [lines k] eqn:Erp. cbn [fst snd] in Hd.
  assert (Hb : Forall (fun l => List.length l <= MAX_LINE_LENGTH - 1 /\ ~ In NL l) lines).
  { replace lines with (fst (read_phase st)) by (rewrite Erp; reflexivity).
    apply read_loop_bounded. constructor. }
  pose proof (edit_phase_bounded T lines k Hb HT) as Hb'.
  destruct (edit_phase T lines k) as [lines' warn]. cbn [fst] in Hb'.
  rewrite Hw. simpl negb. cbv iota. cbn [ret disk data ub].
  split; [exact Hd|]. split; [reflexivity|]. unfold written. rewrite Hq.
  rewrite lines_of_render.
  - apply Forall_map. eapply Forall_impl; [|exact Hb'].
    intros l [Hlen _]. pose proof (cstr_length l). lia.
  - eapply Forall_impl; [|exact Hb']. intros l [_ H]; exact H.
Qed.

Lemma C5_witness :
  let r := add_key_to_properties tokA (file (repeat "a"%char 1500)) in
  ub r = false /\ ret r = 0%Z /\
  Forall (fun l => List.length l <= MAX_LINE_LENGTH - 1) (lines_of (data (disk r))).
Proof.
  apply C5_no_line_length_error.
  - reflexivity.
  - reflexivity.
  - reflexivity.
  - apply token_ok_no_nl. vm_compute. reflexivity.
  - apply Z.leb_le. vm_compute. reflexivity.
Defined.

(** ** C6: a failed read of [/dev/urandom] *)

(** [/dev/urandom] opens, but [read] returns -1 and leaves [buffer] as it
    was (here all zero). *)
Definition urandom_read_fails : entropy :=
  {| urandom_opens := true; urandom_read := None; stale := fun _ => Byte.x00 |}.

(** C6 (code bug): the return value of [read] is ignored, so a failed read
    does not stop the program: the key is built from the stale buffer, the
    file is rewritten with it and the exit status is 0. *)
Theorem C6_read_failure_not_detected :
  let st := file (text_of ["server.port=8080"]%string) in
  let r := main urandom_read_fails st in
  generate_api_key urandom_read_fails KEY_LENGTH = Some tokA /\
  exit_status r = 0%Z /\
  lines_of (data (disk_after r)) =
  [list_ascii_of_string "server.port=8080"; keys_prefix ++ tokA].
Proof. split; [|split]; vm_compute; reflexivity. Qed.

(** ** C7: no keys line *)

(** C7 (refutation): a 1042-byte line that does not start with the keys
    prefix, but whose second [fgets] piece does, is taken for the keys line:
    no warning, and the last line is not [api.security.keys=T]. *)
Lemma C7_counterexample :
  let F := repeat "a"%char 1023 ++ list_ascii_of_string "api.security.keys=x" ++ [NL] in
  let r := main urandom_zeros (file F) in
  no_keysb (lines_of F) = true /\
  generate_api_key urandom_zeros KEY_LENGTH = Some tokA /\
  exit_status r = 0%Z /\
  last (lines_of (data (disk_after r))) [] <> keys_prefix ++ tokA /\
  stderr r = [].
Proof.
  split; [vm_compute; reflexivity|]. split; [vm_compute; reflexivity|].
  split; [vm_compute; reflexivity|]. split; [|vm_compute; reflexivity].
  vm_compute. intros H. discriminate.
Qed.

(** C7 (amended): when every line has at most 1022 bytes and none starts
    with the keys prefix, and the file can be rewritten, the last line
    becomes [api.security.keys=T] for the generated token [T], the warning is
    printed on stderr and the exit status is 0. *)
Theorem C7_missing_keys_line e st :
  urandom_opens e = true ->
  readable st = true -> writable st = true -> quota st = None ->
  short_lines (data st) ->
  Forall (fun x => is_keys_line x = false) (lines_of (data st)) ->
  exists key,
    generate_api_key e KEY_LENGTH = Some key /\
    last (lines_of (data (disk_after (main e st)))) [] = keys_prefix ++ key /\
    stderr (main e st) = [warning_missing] /\
    exit_status (main e st) = 0%Z.
Proof.
  intros Ho Hr Hw Hq Hs Hn.
  destruct (generate_api_key e KEY_LENGTH) as [key|] eqn:Eg.
  2:{ unfold generate_api_key in Eg. rewrite Ho in Eg. discriminate. }
  exists key. pose proof (generate_token_ok e key Eg) as HT.
  destruct (add_key_no_keys_line key st) as (Hret & Herr & Hlines); auto.
  destruct (main_success e st key Eg Hret) as (Hex & Hd & He).
  rewrite Hd, He, Hlines, last_last. auto.
Qed.

Lemma C7_witness :
  exists key,
    generate_api_key urandom_zeros KEY_LENGTH = Some key /\
    last (lines_of (data (disk_after (main urandom_zeros
            (file (text_of ["server.port=8080"]%string)))))) [] = keys_prefix ++ key /\
    stderr (main urandom_zeros (file (text_of ["server.port=8080"]%string))) =
      [warning_missing] /\
    exit_status (main urandom_zeros (file (text_of ["server.port=8080"]%string))) = 0%Z.
Proof.
  apply C7_missing_keys_line.
  - reflexivity.
  - reflexivity.
  - reflexivity.
  - reflexivity.
  - apply short_linesb_ok. vm_compute. reflexivity.
  - apply no_keysb_ok. vm_compute. reflexivity.
Defined.

(** ** C8: the token in the value of the keys line *)

(** The comma-separated elements of the value of the last keys line; no
    element at all when there is no keys line. *)
Definition keys_values (ls : list bytes) : list bytes :=
  match last_keys_line ls with
  | Some l => split_on COMMA (skipn 18 l)
  | None => []
  end.

(** C8 (refutation): the editor does not deduplicate.  When the value
    already holds the generated token, the token ends up in it twice. *)
Lemma C8_counterexample :
  let F := keys_prefix ++ tokA ++ [NL] in
  let r := main urandom_zeros (file F) in
  generate_api_key urandom_zeros KEY_LENGTH = Some tokA /\
  exit_status r = 0%Z /\
  keys_values (lines_of (data (disk_after r))) = [tokA; tokA].
Proof. split; [|split]; vm_compute; reflexivity. Qed.

(** C8 (amended): when the extended keys line fits in 1023 bytes (text
    file, lines of at most 1022 bytes, no read error, at most [2^31] lines),
    the elements of the keys value after the run are the elements before it
    followed by [T]: [T] is the last element, and it occurs exactly once iff
    it did not occur before. *)
Theorem C8_token_last_value T st :
  readable st = true -> writable st = true -> quota st = None ->
  read_fails_after st = None ->
  (Z.of_nat (List.length (lines_of (data st))) <= 2 ^ 31)%Z ->
  short_lines (data st) -> text_file (data st) -> token_ok T = true ->
  (forall l, last_keys_line (lines_of (data st)) = Some l ->
     List.length l + 1 + KEY_LENGTH <= MAX_LINE_LENGTH - 1) ->
  let r := add_key_to_properties T st in
  ret r = 0%Z /\
  keys_values (lines_of (data (disk r))) = keys_values (lines_of (data st)) ++ [T].
Proof.
  intros Hr Hw Hq Hrf Hn Hs Ht HT Hfit r. subst r.
  unfold keys_values at 2.
  destruct (last_keys_line (lines_of (data st))) as [l|] eqn:E.
  - specialize (Hfit l eq_refl).
    destruct (last_keys_line_some _ _ E) as (pre & post & Hls & Hl & Hp).
    destruct (add_key_keys_line T st pre l post) as (Hret & _ & _ & Eo); auto.
    split; [exact Hret|]. rewrite Eo.
    assert (Hcl : clean l).
    { pose proof (clean_lines _ Ht) as Hc. rewrite Forall_forall in Hc.
      apply Hc. rewrite Hls. apply in_or_app. right. left. reflexivity. }
    unfold snprintf_line. rewrite firstn_all2.
    2:{ rewrite length_app. simpl. rewrite (token_ok_length T HT). unfold KEY_LENGTH, MAX_LINE_LENGTH in *. lia. }
    unfold keys_values. rewrite last_keys_line_app; auto using is_keys_line_app.
    pose proof (keys_line_length l Hl).
    rewrite skipn_app. replace (18 - List.length l) with 0 by lia. simpl skipn.
    apply split_on_app_sep, token_ok_no_comma, HT.
  - apply last_keys_line_none_inv in E.
    destruct (add_key_no_keys_line T st) as (Hret & _ & Eo); auto.
    split; [exact Hret|]. rewrite Eo. unfold keys_values.
    rewrite (last_keys_line_app _ _ []); auto using is_keys_line_prefix.
    rewrite skipn_app, keys_prefix_length. simpl.
    apply split_on_nosep, token_ok_no_comma, HT.
Qed.

Lemma C8_witness :
  let r := add_key_to_properties tokA (file (text_of ["api.security.keys=k1,k2"]%string)) in
  ret r = 0%Z /\
  keys_values (lines_of (data (disk r))) =
  keys_values (lines_of (text_of ["api.security.keys=k1,k2"]%string)) ++ [tokA].
Proof.
  apply C8_token_last_value.
  - reflexivity.
  - reflexivity.
  - reflexivity.
  - reflexivity.
  - apply Z.leb_le. vm_compute. reflexivity.
  - apply short_linesb_ok. vm_compute. reflexivity.
  - apply text_fileb_ok. vm_compute. reflexivity.
  - vm_compute. reflexivity.
  - intros l Hl. vm_compute in Hl. injection Hl as <-. vm_compute. lia.
Defined.

(** ** C9: exit status and the file on disk *)

(** C9 (code bug): a failing write (a full device) is not detected: the
    [fprintf] and [fclose] results are ignored, so the file is left empty and
    the exit status is 0. *)
Theorem C9_write_failure_exit_zero :
  let st := {| data := text_of ["server.port=8080"; "api.security.keys=abc"]%string;
               readable := true; writable := true; quota := Some 0;
               read_fails_after := None |} in
  let r := main urandom_zeros st in
  exit_status r = 0%Z /\ data (disk_after r) = [].
Proof. split; vm_compute; reflexivity. Qed.

(** ** C10: carriage returns *)

(** C10 (refutation): a CRLF keys line of 1021 bytes does not read
    [api.security.keys=<v>\r,T] afterwards: it is cut at 1023 bytes. *)
Lemma C10_counterexample :
  let v := repeat "a"%char 1000 in
  let F := keys_prefix ++ v ++ [CR; NL] in
  lines_of F = [keys_prefix ++ v ++ [CR]] /\
  lines_of (data (disk (add_key_to_properties tokA (file F)))) <>
  [keys_prefix ++ v ++ CR :: COMMA :: tokA].
Proof.
  split; [vm_compute; reflexivity|].
  intros H. apply (f_equal (fun o => List.length (hd [] o))) in H.
  vm_compute in H. discriminate.
Qed.

(** C10 (amended): only the newline is stripped.  When the extended line
    fits in 1023 bytes, a last keys line [api.security.keys=<v>\r] is written
    back as [api.security.keys=<v>\r,T] and a newline, and every other line,
    with its carriage return if it has one, is written back as it was,
    followed by a newline (text file, lines of at most 1022 bytes, no read
    error, at most [2^31] lines). *)
Theorem C10_carriage_return_kept T st pre v post :
  readable st = true -> writable st = true -> quota st = None ->
  read_fails_after st = None ->
  (Z.of_nat (List.length (lines_of (data st))) <= 2 ^ 31)%Z ->
  short_lines (data st) -> text_file (data st) ->
  lines_of (data st) = pre ++ (keys_prefix ++ v ++ [CR]) :: post ->
  Forall (fun x => is_keys_line x = false) post ->
  token_ok T = true ->
  List.length keys_prefix + List.length v + 2 + KEY_LENGTH <= MAX_LINE_LENGTH - 1 ->
  data (disk (add_key_to_properties T st)) =
  List.concat (map (fun l => l ++ [NL]) (pre ++ (keys_prefix ++ v ++ CR :: COMMA :: T) :: post)).
Proof.
  intros Hr Hw Hq Hrf Hn Hs Ht Hls Hp HT Hfit.
  pose proof (clean_lines _ Ht) as Hc. rewrite Hls in Hc.
  apply Forall_app in Hc as [Hcpre Hc]. inversion Hc as [|? ? Hcl Hcpost]; subst.
  destruct (add_key_keys_line T st pre (keys_prefix ++ v ++ [CR]) post)
    as (_ & _ & Ed & _); auto using is_keys_line_prefix.
  assert (El : snprintf_line ((keys_prefix ++ v ++ [CR]) ++ COMMA :: T) =
               keys_prefix ++ v ++ CR :: COMMA :: T).
  { unfold snprintf_line. rewrite firstn_all2.
    - rewrite <- !app_assoc. reflexivity.
    - rewrite !length_app. simpl. rewrite (token_ok_length T HT).
      rewrite keys_prefix_length in *. unfold KEY_LENGTH, MAX_LINE_LENGTH in *. lia. }
  rewrite Ed, El. apply render_clean.
  apply Forall_app; split; auto. constructor; auto.
  rewrite <- El. apply clean_snprintf, clean_app; auto.
  apply (clean_app [COMMA] T clean_comma (clean_token T HT)).
Qed.

Lemma C10_witness :
  let F := (list_ascii_of_string "a=1" ++ [CR; NL]) ++
           (keys_prefix ++ list_ascii_of_string "k" ++ [CR; NL]) in
  data (disk (add_key_to_properties tokA (file F))) =
  List.concat (map (fun l => l ++ [NL])
    ([list_ascii_of_string "a=1" ++ [CR]] ++
     (keys_prefix ++ list_ascii_of_string "k" ++ CR :: COMMA :: tokA) :: [])).
Proof.
  apply (C10_carriage_return_kept tokA _ [list_ascii_of_string "a=1" ++ [CR]]
           (list_ascii_of_string "k") []).
  - reflexivity.
  - reflexivity.
  - reflexivity.
  - reflexivity.
  - apply Z.leb_le. vm_compute. reflexivity.
  - apply short_linesb_ok. vm_compute. reflexivity.
  - apply text_fileb_ok. vm_compute. reflexivity.
  - vm_compute. reflexivity.
  - constructor.
  - vm_compute. reflexivity.
  - vm_compute. lia.
Defined.

(** ** Further properties of the code *)

(** *** [main]'s failure paths *)

(** When [/dev/urandom] cannot be opened, [main] exits with 1 before
    touching the file and prints nothing on stdout. *)
Theorem main_urandom_unavailable e st :
  urandom_opens e = false ->
  exit_status (main e st) = 1%Z /\ disk_after (main e st) = st /\ stdout (main e st) = [].
Proof.
  intros H. unfold main, generate_api_key. rewrite H. simpl. auto.
Qed.

Lemma main_urandom_unavailable_witness :
  let e := {| urandom_opens := false; urandom_read := None; stale := fun _ => Byte.x00 |} in
  exit_status (main e (file [])) = 1%Z /\ disk_after (main e (file [])) = file [] /\
  stdout (main e (file [])) = [].
Proof. apply main_urandom_unavailable. reflexivity. Defined.

(** When the file (of at most [2^31] bytes) is read but cannot be reopened
    for writing, [main] exits with 1 without undefined behaviour, the file
    is unchanged, only the key is printed on stdout and the failure message
    is the last line on stderr. *)
Theorem main_unwritable e st :
  urandom_opens e = true -> readable st = true -> writable st = false ->
  (Z.of_nat (List.length (data st)) <= 2 ^ 31)%Z ->
  exists key,
    generate_api_key e KEY_LENGTH = Some key /\
    run_ub (main e st) = false /\
    exit_status (main e st) = 1%Z /\ disk_after (main e st) = st /\
    stdout (main e st) = [("Generated API Key: " ++ string_of_list_ascii key)%string] /\
    last (stderr (main e st)) EmptyString =
      "Failed to add API Key to application.properties"%string.
Proof.
  intros Ho Hr Hw Hn.
  destruct (generate_api_key e KEY_LENGTH) as [key|] eqn:Eg.
  2:{ unfold generate_api_key in Eg. rewrite Ho in Eg. discriminate. }
  exists key. split; [reflexivity|].
  assert (Hd : edit_undefined (fst (read_phase st)) (snd (read_phase st)) = false).
  { apply read_phase_defined. pose proof (read_phase_length st). lia. }
  unfold main. rewrite Eg. unfold add_key_to_properties.
  rewrite Hr. simpl negb. cbv iota.
  destruct (read_phase st) as [lines k]. cbn [fst snd] in Hd.
  destruct (edit_phase key lines k) as [lines' warn].
  rewrite Hw. simpl negb. cbv iota. cbn [ret disk err ub].
  cbv beta iota zeta delta [Z.eqb]. cbn [exit_status disk_after stdout stderr run_ub].
  repeat split; auto. rewrite last_last. reflexivity.
Qed.

Lemma main_unwritable_witness :
  let st := {| data := text_of ["a=1"]%string; readable := true; writable := false;
               quota := None; read_fails_after := None |} in
  exists key,
    generate_api_key urandom_zeros KEY_LENGTH = Some key /\
    run_ub (main urandom_zeros st) = false /\
    exit_status (main urandom_zeros st) = 1%Z /\ disk_after (main urandom_zeros st) = st /\
    stdout (main urandom_zeros st) = [("Generated API Key: " ++ string_of_list_ascii key)%string] /\
    last (stderr (main urandom_zeros st)) EmptyString =
      "Failed to add API Key to application.properties"%string.
Proof.
  apply main_unwritable.
  - reflexivity.
  - reflexivity.
  - reflexivity.
  - apply Z.leb_le. vm_compute. reflexivity.
Defined.

(** *** The generator, whatever [read] does *)

(** Once [/dev/urandom] is open, a key of the requested length over the
    62-symbol alphabet is produced whatever [read] returned (full, short or
    failed read). *)
Theorem generate_any_read e n :
  urandom_opens e = true ->
  exists key, generate_api_key e n = Some key /\ List.length key = n /\
              Forall (fun c => In c charset) key.
Proof.
  intros Ho. destruct (generate_api_key e n) as [key|] eqn:Eg.
  - exists key. split; auto. apply generate_api_key_shape in Eg as [Hl Hc].
    split; auto. apply Forall_forall. exact Hc.
  - unfold generate_api_key in Eg. rewrite Ho in Eg. discriminate.
Qed.

Lemma generate_any_read_witness :
  exists key, generate_api_key urandom_read_fails 5 = Some key /\ List.length key = 5 /\
              Forall (fun c => In c charset) key.
Proof. apply generate_any_read. reflexivity. Defined.

(** The positions of the key that [read] did not fill (all of them after a
    failed read, those from the count returned on after a short read) are
    taken from the stale contents of [buffer]. *)
Theorem generate_unfilled_from_stale e n i key :
  generate_api_key e n = Some key -> i < n ->
  match urandom_read e with Some l => List.length l <= i | None => True end ->
  nth i key NUL = nth (Byte.to_nat (stale e i) mod 62) charset NUL.
Proof.
  unfold generate_api_key. destruct (urandom_opens e); [|discriminate].
  intros H Hi Hr. injection H as <-.
  rewrite (nth_indep _ NUL (key_char e n 0)) by (rewrite length_map, length_seq; exact Hi).
  rewrite map_nth, seq_nth by exact Hi. simpl (0 + i).
  unfold key_char, buffer_after_read.
  destruct (urandom_read e) as [l|]; [|reflexivity].
  replace (i <? Nat.min (List.length l) n) with false; [reflexivity|].
  symmetry. apply Nat.ltb_ge. lia.
Qed.

Lemma generate_unfilled_from_stale_witness :
  let e := {| urandom_opens := true; urandom_read := Some [Byte.x01];
              stale := fun _ => Byte.x3e |} in
  nth 3 (map (key_char e 8) (seq 0 8)) NUL = nth (Byte.to_nat Byte.x3e mod 62) charset NUL.
Proof.
  apply (generate_unfilled_from_stale
           {| urandom_opens := true; urandom_read := Some [Byte.x01];
              stale := fun _ => Byte.x3e |} 8 3).
  - reflexivity.
  - lia.
  - simpl. lia.
Defined.

(** [buffer[i] % 62] over the 256 values of an [unsigned char]: each of the
    first 8 symbols of [charset] is hit by 5 values, each of the other 54
    by 4. *)
Theorem modulo_bias j :
  j < charset_size ->
  List.length (filter (fun b => b mod charset_size =? j) (seq 0 256)) =
  if j <? 8 then 5 else 4.
Proof.
  intros Hj. unfold charset_size in *. rewrite charset_length in *.
  do 62 (destruct j as [|j]; [reflexivity|]). lia.
Qed.

Lemma modulo_bias_witness :
  List.length (filter (fun b => b mod charset_size =? 7) (seq 0 256)) = 5.
Proof. apply (modulo_bias 7). vm_compute. lia. Defined.

(** *** The read loop's index *)

(** For any file and any read error, [key_line_index] after the read loop
    is -1 when no stored line starts with the keys prefix, and otherwise the
    [int] conversion of the index of the last stored line that does: that
    index itself below [2^31], a negative number or a smaller index
    beyond. *)
Theorem read_phase_key_index st lines k :
  read_phase st = (lines, k) ->
  (k = (-1)%Z /\ Forall (fun l => is_keys_line l = false) lines) \/
  (exists i, k = int_of_size_t i /\ i < List.length lines /\
             is_keys_line (nth i lines []) = true /\
             forall j, i < j < List.length lines -> is_keys_line (nth j lines []) = false).
Proof.
  intros H. pose proof (read_phase_index st) as Hi. rewrite H in Hi. exact Hi.
Qed.

Lemma read_phase_key_index_witness :
  let st := file (text_of ["api.security.keys=a"; "x"; "api.security.keys=b"; "y"]%string) in
  index_ok (fst (read_phase st)) (snd (read_phase st)).
Proof.
  unfold index_ok.
  apply (read_phase_key_index
           (file (text_of ["api.security.keys=a"; "x"; "api.security.keys=b"; "y"]%string))).
  vm_compute. reflexivity.
Defined.

(** *** Shape of the rewritten file *)

(** After a successful run (every byte accepted by the device) on a file of
    at most [2^31] bytes the file is never empty and ends with a newline,
    whatever the input and whatever read error cuts the reading short:
    there is always a keys line to write, and every line is written with
    ["%s\n"]. *)
Theorem add_key_ends_with_newline api_key st :
  readable st = true -> writable st = true -> quota st = None ->
  (Z.of_nat (List.length (data st)) <= 2 ^ 31)%Z ->
  ub (add_key_to_properties api_key st) = false /\
  ret (add_key_to_properties api_key st) = 0%Z /\
  exists body, data (disk (add_key_to_properties api_key st)) = body ++ [NL].
Proof.
  intros Hr Hw Hq Hn.
  assert (Hd : edit_undefined (fst (read_phase st)) (snd (read_phase st)) = false).
  { apply read_phase_defined. pose proof (read_phase_length st). lia. }
  pose proof (read_phase_index st) as Hi.
  unfold add_key_to_properties.
  rewrite Hr. simpl negb. cbv iota.
  destruct (read_phase st) as [lines k]. cbn [fst snd] in Hd, Hi.
  assert (Hne : fst (edit_phase api_key lines k) <> []).
  { unfold edit_phase. destruct (k =? -1)%Z eqn:Ek; cbn [fst].
    - destruct lines; discriminate.
    - destruct Hi as [[-> _] | (i & -> & Hil & _)]; [discriminate|].
      intros E. apply (f_equal (@List.length bytes)) in E.
      rewrite set_nth_length in E. simpl in E. lia. }
  destruct (edit_phase api_key lines k) as [lines' warn]. cbn [fst] in Hne.
  rewrite Hw. simpl negb. cbv iota. cbn [ret disk data ub].
  split; [exact Hd|]. split; [reflexivity|]. unfold written. rewrite Hq.
  destruct (exists_last Hne) as (ls0 & x & ->).
  exists (render ls0 ++ cstr x). unfold render.
  rewrite map_app, concat_app. simpl. rewrite app_nil_r, app_assoc. reflexivity.
Qed.

Lemma add_key_ends_with_newline_witness :
  ub (add_key_to_properties tokA (file (list_ascii_of_string "a=1"))) = false /\
  ret (add_key_to_properties tokA (file (list_ascii_of_string "a=1"))) = 0%Z /\
  exists body, data (disk (add_key_to_properties tokA (file (list_ascii_of_string "a=1")))) =
               body ++ [NL].
Proof.
  apply add_key_ends_with_newline.
  - reflexivity.
  - reflexivity.
  - reflexivity.
  - apply Z.leb_le. vm_compute. reflexivity.
Defined.

(** An empty file becomes exactly [api.security.keys=T] and a newline,
    with the warning on stderr. *)
Theorem add_key_empty_file T st :
  data st = [] -> readable st = true -> writable st = true -> quota st = None ->
  token_ok T = true ->
  let r := add_key_to_properties T st in
  ret r = 0%Z /\ err r = [warning_missing] /\ data (disk r) = keys_prefix ++ T ++ [NL].
Proof.
  intros Hd Hr Hw Hq HT r. subst r. unfold add_key_to_properties, read_phase.
  rewrite Hr, Hd, read_loop_nil. simpl negb. cbv iota.
  unfold edit_phase. rewrite Z.eqb_refl. cbn [app].
  rewrite Hw. simpl negb. cbv iota. cbn [ret disk data err].
  split; [reflexivity|]. split; [reflexivity|].
  unfold written. rewrite Hq. unfold render. cbn [map List.concat].
  rewrite app_nil_r.
  assert (Hc : clean (keys_prefix ++ T))
    by apply (clean_app _ _ clean_keys_prefix (clean_token T HT)).
  rewrite (cstr_nonul T) by apply (token_ok_no_nul T HT).
  unfold snprintf_line. rewrite firstn_all2.
  - rewrite cstr_nonul by apply (proj2 Hc). rewrite app_assoc. reflexivity.
  - rewrite length_app, (token_ok_length T HT), keys_prefix_length. unfold KEY_LENGTH, MAX_LINE_LENGTH. lia.
Qed.

Lemma add_key_empty_file_witness :
  let r := add_key_to_properties tokA (file []) in
  ret r = 0%Z /\ err r = [warning_missing] /\ data (disk r) = keys_prefix ++ tokA ++ [NL].
Proof. apply add_key_empty_file; reflexivity. Defined.

(** *** The keys-line test *)

(** [strncmp(line, "api.security.keys=", 18) == 0] holds exactly when the
    C string of the line starts, byte for byte, with the keys prefix (so a
    commented [#api.security.keys=] or a [ api.security.keys=] line does
    not match). *)
Theorem is_keys_line_iff l :
  is_keys_line l = true <-> exists r, cstr l = keys_prefix ++ r.
Proof.
  unfold is_keys_line, strncmp_eq. rewrite keys_prefix_firstn. split.
  - destruct (list_eq_dec ascii_dec (firstn 18 (cstr l)) keys_prefix) as [E|];
      [|discriminate].
    intros _. exists (skipn 18 (cstr l)). rewrite <- E at 1. symmetry. apply firstn_skipn.
  - intros (r & Er). rewrite Er, firstn_app, keys_prefix_length, Nat.sub_diag.
    change (firstn 0 r) with (@nil ascii).
    replace (firstn 18 keys_prefix) with keys_prefix by reflexivity. rewrite app_nil_r.
    destruct (list_eq_dec ascii_dec keys_prefix keys_prefix) as [|n]; [reflexivity|].
    exfalso; apply n; reflexivity.
Qed.

(** *** Line counts *)

(** For a text file whose lines fit in the buffer, read without error and
    of at most [2^31] lines, the rewritten file has as many lines as the
    input, one more when a keys line had to be created. *)
Theorem add_key_line_count T st :
  readable st = true -> writable st = true -> quota st = None ->
  read_fails_after st = None ->
  (Z.of_nat (List.length (lines_of (data st))) <= 2 ^ 31)%Z ->
  short_lines (data st) -> text_file (data st) -> token_ok T = true ->
  List.length (lines_of (data (disk (add_key_to_properties T st)))) =
  List.length (lines_of (data st)) +
  match last_keys_line (lines_of (data st)) with Some _ => 0 | None => 1 end.
Proof.
  intros Hr Hw Hq Hrf Hn Hs Ht HT.
  destruct (last_keys_line (lines_of (data st))) as [l|] eqn:E.
  - destruct (last_keys_line_some _ _ E) as (pre & post & Hls & Hl & Hp).
    destruct (add_key_keys_line T st pre l post) as (_ & _ & _ & Eo); auto.
    rewrite Eo, Hls, !length_app. simpl. lia.
  - apply last_keys_line_none_inv in E.
    destruct (add_key_no_keys_line T st) as (_ & _ & Eo); auto.
    rewrite Eo, read_budget_all, length_app, length_map by auto. reflexivity.
Qed.

Lemma add_key_line_count_witness :
  List.length (lines_of (data (disk (add_key_to_properties tokA
    (file (text_of ["a=1"; "b=2"]%string)))))) =
  List.length (lines_of (text_of ["a=1"; "b=2"]%string)) +
  match last_keys_line (lines_of (text_of ["a=1"; "b=2"]%string)) with
  | Some _ => 0 | None => 1 end.
Proof.
  apply add_key_line_count.
  - reflexivity.
  - reflexivity.
  - reflexivity.
  - reflexivity.
  - apply Z.leb_le. vm_compute. reflexivity.
  - apply short_linesb_ok. vm_compute. reflexivity.
  - apply text_fileb_ok. vm_compute. reflexivity.
  - vm_compute. reflexivity.
Defined.

(** *** Read errors *)




(** *** Repeated runs *)

(** The program run once per token, each run on the file the previous one
    left. *)
Fixpoint add_keys (Ts : list bytes) (st : fs) : fs :=
  match Ts with
  | [] => st
  | T :: Ts' => add_keys Ts' (disk (add_key_to_properties T st))
  end.

(** The length of the last keys line; with no keys line, one less than the
    keys prefix, so that a run always adds 33 bytes ([,T] or a new
    [api.security.keys=T]). *)
Definition keys_len (ls : list bytes) : nat :=
  match last_keys_line ls with
  | Some l => List.length l
  | None => List.length keys_prefix - 1
  end.

Lemma render_no_nul ls : ~ In NUL (render ls).
Proof.
  unfold render. intros H. apply in_concat in H as (x & Hx & Hin).
  apply in_map_iff in Hx as (l & <- & _).
  apply in_app_or in Hin as [Hin|[Hin|[]]].
  - apply (cstr_no_nul l Hin).
  - discriminate.
Qed.

Lemma run_once T st :
  readable st = true -> writable st = true -> quota st = None ->
  read_fails_after st = None ->
  (Z.of_nat (List.length (lines_of (data st))) <= 2 ^ 31)%Z ->
  short_lines (data st) -> text_file (data st) -> token_ok T = true ->
  keys_len (lines_of (data st)) + 1 + KEY_LENGTH <= MAX_LINE_LENGTH - 2 ->
  let st' := disk (add_key_to_properties T st) in
  readable st' = true /\ writable st' = true /\ quota st' = None /\
  read_fails_after st' = None /\
  List.length (lines_of (data st')) <= S (List.length (lines_of (data st))) /\
  short_lines (data st') /\ text_file (data st') /\
  keys_values (lines_of (data st')) = keys_values (lines_of (data st)) ++ [T] /\
  keys_len (lines_of (data st')) = keys_len (lines_of (data st)) + 1 + KEY_LENGTH.
Proof.
  intros Hr Hw Hq Hrf Hn Hs Ht HT Hfit st'. subst st'.
  pose proof (token_ok_length T HT) as HTl.
  assert (Hf : readable (disk (add_key_to_properties T st)) = true /\
                writable (disk (add_key_to_properties T st)) = true /\
                quota (disk (add_key_to_properties T st)) = None /\
                read_fails_after (disk (add_key_to_properties T st)) = None /\
                text_file (data (disk (add_key_to_properties T st)))).
  { rewrite (add_key_short T st Hr Hw Hs).
    cbn [disk data readable writable quota read_fails_after].
    unfold written. rewrite Hq. repeat split; auto. apply render_no_nul. }
  destruct Hf as (Hr' & Hw' & Hq' & Hrf' & Ht').
  split; [exact Hr'|]. split; [exact Hw'|]. split; [exact Hq'|]. split; [exact Hrf'|].
  split.
  { destruct (last_keys_line (lines_of (data st))) as [l|] eqn:E.
    - destruct (last_keys_line_some _ _ E) as (pre & post & Hls & Hl & Hp).
      destruct (add_key_keys_line T st pre l post) as (_ & _ & _ & Eo); auto.
      rewrite Eo, Hls, !length_app. simpl. lia.
    - apply last_keys_line_none_inv in E.
      destruct (add_key_no_keys_line T st) as (_ & _ & Eo); auto.
      rewrite Eo, read_budget_all, length_app, length_map by auto. simpl. lia. }
  split.
  2:{ split; [exact Ht'|].
      unfold keys_values, keys_len in *.
      destruct (last_keys_line (lines_of (data st))) as [l|] eqn:E.
      - destruct (last_keys_line_some _ _ E) as (pre & post & Hls & Hl & Hp).
        destruct (add_key_keys_line T st pre l post) as (_ & _ & _ & Eo); auto.
        assert (Hcl : clean l).
        { pose proof (clean_lines _ Ht) as Hc. rewrite Forall_forall in Hc.
          apply Hc. rewrite Hls. apply in_or_app. right. left. reflexivity. }
        rewrite Eo. unfold snprintf_line. rewrite firstn_all2.
        2:{ rewrite length_app. simpl. rewrite HTl.
            unfold KEY_LENGTH, MAX_LINE_LENGTH in *. lia. }
        rewrite last_keys_line_app; auto using is_keys_line_app.
        pose proof (keys_line_length l Hl).
        rewrite skipn_app. replace (18 - List.length l) with 0 by lia. simpl skipn.
        split; [apply split_on_app_sep, token_ok_no_comma, HT|].
        rewrite length_app. simpl. rewrite HTl. lia.
      - apply last_keys_line_none_inv in E.
        destruct (add_key_no_keys_line T st) as (_ & _ & Eo); auto.
        rewrite Eo, (last_keys_line_app _ _ []); auto using is_keys_line_prefix.
        rewrite skipn_app, keys_prefix_length. simpl skipn.
        split; [apply split_on_nosep, token_ok_no_comma, HT|].
        rewrite length_app, keys_prefix_length, HTl. unfold KEY_LENGTH, MAX_LINE_LENGTH. lia. }
  unfold short_lines, keys_len in *.
  destruct (last_keys_line (lines_of (data st))) as [l|] eqn:E.
  - destruct (last_keys_line_some _ _ E) as (pre & post & Hls & Hl & Hp).
    destruct (add_key_keys_line T st pre l post) as (_ & _ & _ & Eo); auto.
    rewrite Eo. rewrite Hls in Hs. apply Forall_app in Hs as [Hpre Hs].
    inversion Hs as [|? ? _ Hpost]; subst.
    apply Forall_app; split; auto. constructor; auto.
    unfold snprintf_line. rewrite firstn_all2; rewrite length_app; simpl; rewrite HTl;
      unfold KEY_LENGTH, MAX_LINE_LENGTH in *; lia.
  - apply last_keys_line_none_inv in E.
    destruct (add_key_no_keys_line T st) as (_ & _ & Eo); auto.
    rewrite Eo, read_budget_all, map_cstr_text by auto. apply Forall_app; split; auto.
    constructor; auto. rewrite length_app, keys_prefix_length, HTl. unfold KEY_LENGTH, MAX_LINE_LENGTH. lia.
Qed.

(** Running the program once per token [T1 .. Tk] on a text file whose
    lines fit in the buffer, with no read error and at most [2^31 - k]
    lines, appends [T1 .. Tk], in that order, to the elements of the keys
    value, as long as the keys line stays within 1022 bytes. *)
Theorem add_keys_values Ts st :
  readable st = true -> writable st = true -> quota st = None ->
  read_fails_after st = None ->
  (Z.of_nat (List.length (lines_of (data st)) + List.length Ts) <= 2 ^ 31)%Z ->
  short_lines (data st) -> text_file (data st) ->
  Forall (fun T => token_ok T = true) Ts ->
  keys_len (lines_of (data st)) + (1 + KEY_LENGTH) * List.length Ts <= MAX_LINE_LENGTH - 2 ->
  keys_values (lines_of (data (add_keys Ts st))) = keys_values (lines_of (data st)) ++ Ts.
Proof.
  intros Hr Hw Hq Hrf Hn Hs Ht HTs. revert st Hr Hw Hq Hrf Hn Hs Ht.
  induction HTs as [|T Ts HT HTs IH]; intros st Hr Hw Hq Hrf Hn Hs Ht Hfit; simpl.
  - rewrite app_nil_r. reflexivity.
  - simpl List.length in Hfit, Hn.
    destruct (run_once T st) as (Hr' & Hw' & Hq' & Hrf' & Hc & Hs' & Ht' & Hv & Hl); auto.
    { lia. }
    { unfold KEY_LENGTH, MAX_LINE_LENGTH in *. lia. }
    rewrite IH; auto.
    + rewrite Hv, <- app_assoc. reflexivity.
    + lia.
    + rewrite Hl. unfold KEY_LENGTH, MAX_LINE_LENGTH in *. lia.
Qed.

Lemma add_keys_values_witness :
  keys_values (lines_of (data (add_keys [tokA; repeat "B"%char KEY_LENGTH]
                                        (file (text_of ["a=1"]%string))))) =
  keys_values (lines_of (text_of ["a=1"]%string)) ++ [tokA; repeat "B"%char KEY_LENGTH].
Proof.
  apply add_keys_values.
  - reflexivity.
  - reflexivity.
  - reflexivity.
  - reflexivity.
  - apply Z.leb_le. vm_compute. reflexivity.
  - apply short_linesb_ok. vm_compute. reflexivity.
  - apply text_fileb_ok. vm_compute. reflexivity.
  - repeat constructor.
  - vm_compute. lia.
Defined.

Lemma main_unreadable_witness :
  let st := {| data := []; readable := false; writable := true; quota := None;
               read_fails_after := None |} in
  exit_status (main urandom_zeros st) = 1%Z /\ disk_after (main urandom_zeros st) = st.
Proof. apply main_unreadable. reflexivity. Defined.
